(** * Action-item extraction, the store and the endpoints (week2/app)

    A shallow embedding of [week2/app/services/extract.py] (the heuristic
    extractor [extract_action_items] and what [extract_action_items_llm]
    does with the reply of the language model), of the operations of
    [week2/app/db.py], of the validators of [week2/app/schemas.py] and of
    the endpoints of [week2/app/routers], followed by the properties
    proved of them.

    Python strings are sequences of Unicode code points: a character is a
    code point in [N] and a [str] is a list of them.  The classes that
    CPython fixes by a short table (white space, line boundaries) are
    written out; the two tables that come from the Unicode database for
    code points outside ASCII (lower-casing and the decimal-digit class)
    are parameters of the development.

    The store is the two tables of [init_db] as finite maps from ids to
    rows.  What sqlite adds to a call (the ids it has given before, its
    clock, the errors it reports for a statement) is an argument of the
    operations that write; the statements that only read are taken to
    succeed. *)

From Stdlib Require Import NArith ZArith Ascii String List Bool Lia.
From stdpp Require Import base gmap sets list strings pretty sorting.

Local Open Scope N_scope.

(** ** Python strings *)

Abbreviation char := N.
Abbreviation str := (list N).

(** An ASCII literal as a [str] (one code point per byte). *)
Definition py (s : string) : str :=
  map N_of_ascii (list_ascii_of_string s).

(** The line feed, ["\n"]. *)
Definition LF : str := [10].

Module Str.

(** [str.isspace] on one character, which is also the class [\s] of
    [re] on [str] patterns (Py_UNICODE_ISSPACE). *)
Definition isspace (c : char) : bool :=
  ((0x09 <=? c) && (c <=? 0x0D)) || ((0x1C <=? c) && (c <=? 0x20))
  || (c =? 0x85) || (c =? 0xA0) || (c =? 0x1680)
  || ((0x2000 <=? c) && (c <=? 0x200A))
  || (c =? 0x2028) || (c =? 0x2029) || (c =? 0x202F) || (c =? 0x205F)
  || (c =? 0x3000).

(** The line boundaries of [str.splitlines] (Py_UNICODE_ISLINEBREAK). *)
Definition islinebreak (c : char) : bool :=
  ((0x0A <=? c) && (c <=? 0x0D)) || ((0x1C <=? c) && (c <=? 0x1E))
  || (c =? 0x85) || (c =? 0x2028) || (c =? 0x2029).

Fixpoint drop_while (p : char -> bool) (s : str) : str :=
  match s with
  | c :: s' => if p c then drop_while p s' else s
  | [] => []
  end.

Definition lstrip (s : str) : str := drop_while isspace s.
Definition rstrip (s : str) : str := rev (drop_while isspace (rev s)).

(** [s.strip()] *)
Definition strip (s : str) : str := rstrip (lstrip s).

(** [not s] *)
Definition is_empty {A} (l : list A) : bool :=
  match l with [] => true | _ => false end.

(** [s.startswith(prefix)] *)
Fixpoint startswith (s prefix : str) : bool :=
  match prefix, s with
  | [], _ => true
  | p :: prefix', c :: s' => (c =? p) && startswith s' prefix'
  | _ :: _, [] => false
  end.

(** [s.removeprefix(prefix)] *)
Definition removeprefix (s prefix : str) : str :=
  if startswith s prefix then drop (length prefix) s else s.

(** [sub in s] *)
Fixpoint contains (s sub : str) : bool :=
  match s with
  | [] => is_empty sub
  | _ :: s' => startswith s sub || contains s' sub
  end.

(** [s.splitlines()].  [cur] is the line being read, last character
    first.  A carriage return directly followed by a line feed is one
    boundary; a last line without a boundary is kept unless it is
    empty. *)
Fixpoint splitlines_from (s : str) (cur : str) : list str :=
  match s with
  | [] => if is_empty cur then [] else [rev cur]
  | c :: s' =>
      if islinebreak c then
        rev cur ::
          match s' with
          | c' :: s'' =>
              if (c =? 0x0D) && (c' =? 0x0A) then splitlines_from s'' []
              else splitlines_from s' []
          | [] => splitlines_from s' []
          end
      else splitlines_from s' (c :: cur)
  end.

Definition splitlines (s : str) : list str := splitlines_from s [].

Definition isascii (s : str) : bool := forallb (fun c => c <? 128) s.

Definition ascii_lower (c : char) : char :=
  if (0x41 <=? c) && (c <=? 0x5A) then c + 32 else c.

End Str.

(** ** Regular expressions

    The fragment of [re] that the three patterns of the module use, with
    the backtracking semantics of [re]: alternatives are tried from left to
    right and a repetition takes as many characters as it can before it
    gives some back. *)

Module Re.

Inductive regex : Type :=
| Bol                               (* ^ (without MULTILINE) *)
| Behind (p : char -> bool)          (* (?<=[...]) *)
| Class (p : char -> bool)           (* one character of the class *)
| Star (p : char -> bool)            (* class*, greedy *)
| Seq (r1 r2 : regex)
| Alt (r1 r2 : regex).

(** [class+] *)
Definition Plus (p : char -> bool) : regex := Seq (Class p) (Star p).

(** The matchers read [s] with [prev] the character before it (none at
    the start of the string) and return the number of characters
    consumed; [k] matches what follows. *)
Fixpoint star_k (p : char -> bool) (prev : option char) (s : str)
    (k : option char -> str -> option nat) : option nat :=
  match s with
  | c :: s' =>
      if p c then
        match star_k p (Some c) s' k with
        | Some n => Some (S n)
        | None => k prev s
        end
      else k prev s
  | [] => k prev s
  end.

Fixpoint match_k (r : regex) (prev : option char) (s : str)
    (k : option char -> str -> option nat) : option nat :=
  match r with
  | Bol => match prev with None => k prev s | Some _ => None end
  | Behind p =>
      match prev with
      | Some c => if p c then k prev s else None
      | None => None
      end
  | Class p =>
      match s with
      | c :: s' => if p c then S <$> k (Some c) s' else None
      | [] => None
      end
  | Star p => star_k p prev s k
  | Seq r1 r2 => match_k r1 prev s (fun prev' s' => match_k r2 prev' s' k)
  | Alt r1 r2 =>
      match match_k r1 prev s k with
      | Some n => Some n
      | None => match_k r2 prev s k
      end
  end.

(** Length of the match of [r] that starts right here, if there is one. *)
Definition match_here (r : regex) (prev : option char) (s : str) : option nat :=
  match_k r prev s (fun _ _ => Some 0%nat).

(** [pattern.match(s)], as a truth value. *)
Definition matches (r : regex) (s : str) : bool :=
  bool_decide (is_Some (match_here r None s)).

(** The scans below go through the string once; [skip] counts the
    characters of the current match still to pass.  None of the patterns
    of the module matches the empty string, and a match of length zero
    is treated as no match. *)

(** [pattern.sub("", s)] *)
Fixpoint sub_empty_from (r : regex) (prev : option char) (s : str)
    (skip : nat) : str :=
  match s with
  | [] => []
  | c :: s' =>
      match skip with
      | S n => sub_empty_from r (Some c) s' n
      | O =>
          match match_here r prev s with
          | Some (S n) => sub_empty_from r (Some c) s' n
          | _ => c :: sub_empty_from r (Some c) s' O
          end
      end
  end.

Definition sub_empty (r : regex) (s : str) : str :=
  sub_empty_from r None s O.

(** [re.split(pattern, s)] for a pattern without groups; [cur] is the
    piece being read, last character first. *)
Fixpoint split_from (r : regex) (prev : option char) (s : str)
    (skip : nat) (cur : str) : list str :=
  match s with
  | [] => [rev cur]
  | c :: s' =>
      match skip with
      | S n => split_from r (Some c) s' n cur
      | O =>
          match match_here r prev s with
          | Some (S n) => rev cur :: split_from r (Some c) s' n []
          | _ => split_from r (Some c) s' O (c :: cur)
          end
      end
  end.

Definition split (r : regex) (s : str) : list str :=
  split_from r None s O [].

(** [re.findall(pattern, s)] for a pattern without groups. *)
Fixpoint findall_from (r : regex) (prev : option char) (s : str)
    (skip : nat) : list str :=
  match s with
  | [] => []
  | c :: s' =>
      match skip with
      | S n => findall_from r (Some c) s' n
      | O =>
          match match_here r prev s with
          | Some (S n) => take (S n) s :: findall_from r (Some c) s' n
          | _ => findall_from r (Some c) s' O
          end
      end
  end.

Definition findall (r : regex) (s : str) : list str :=
  findall_from r None s O.

End Re.

(** ** The extractor ([week2/app/services/extract.py]) *)

Section Extract.

(** [str.lower] on a string with a character outside ASCII, and
    membership of a code point outside ASCII in the class [\d] (Unicode
    category Nd): the two tables of the Unicode database. *)
Variable unicode_lower : str -> str.
Variable unicode_decimal : char -> bool.

(** [s.lower()] *)
Definition lower (s : str) : str :=
  if Str.isascii s then map Str.ascii_lower s else unicode_lower s.

(** The class [\d] of [re] on [str] patterns. *)
Definition isdecimal (c : char) : bool :=
  if c <? 128 then (0x30 <=? c) && (c <=? 0x39) else unicode_decimal c.

(** The class of the three list markers: hyphen, asterisk and the
    bullet U+2022. *)
Definition isbullet (c : char) : bool :=
  (c =? 0x2D) || (c =? 0x2A) || (c =? 0x2022).

(** [BULLET_PREFIX_PATTERN]: start of the string, white space, then a
    list marker or decimal digits and a full stop, then white space (at
    least one character): [^\s*(marker|\d+\.)\s+]. *)
Definition BULLET_PREFIX_PATTERN : Re.regex :=
  Re.Seq Re.Bol
    (Re.Seq (Re.Star Str.isspace)
       (Re.Seq
          (Re.Alt (Re.Class isbullet)
             (Re.Seq (Re.Plus isdecimal) (Re.Class (N.eqb 0x2E))))
          (Re.Plus Str.isspace))).

Definition KEYWORD_PREFIXES : list str :=
  [py "todo:"; py "action:"; py "next:"].

Definition _is_action_line (line : str) : bool :=
  let stripped := lower (Str.strip line) in
  if Str.is_empty stripped then false
  else if Re.matches BULLET_PREFIX_PATTERN stripped then true
  else if existsb (fun prefix => Str.startswith stripped prefix) KEYWORD_PREFIXES
  then true
  else if Str.contains stripped (py "[ ]") || Str.contains stripped (py "[todo]")
  then true
  else false.

(** The class [[A-Za-z']]. *)
Definition isword (c : char) : bool :=
  ((0x41 <=? c) && (c <=? 0x5A)) || ((0x61 <=? c) && (c <=? 0x7A))
  || (c =? 0x27).

Definition imperative_starters : gset str :=
  list_to_set
    [py "add"; py "create"; py "implement"; py "fix"; py "update";
     py "write"; py "check"; py "verify"; py "refactor"; py "document";
     py "design"; py "investigate"].

Definition _looks_imperative (sentence : str) : bool :=
  let words := Re.findall (Re.Plus isword) sentence in
  match words with
  | [] => false
  | first :: _ => bool_decide (lower first ∈ imperative_starters)
  end.

(** The first loop of [extract_action_items], over the lines. *)
Fixpoint scan_lines (lines : list str) (extracted : list str) : list str :=
  match lines with
  | [] => extracted
  | raw_line :: lines' =>
      let line := Str.strip raw_line in
      if Str.is_empty line then scan_lines lines' extracted
      else if _is_action_line line then
        let cleaned := Re.sub_empty BULLET_PREFIX_PATTERN line in
        let cleaned := Str.strip cleaned in
        let cleaned := Str.strip (Str.removeprefix cleaned (py "[ ]")) in
        let cleaned := Str.strip (Str.removeprefix cleaned (py "[todo]")) in
        scan_lines lines' (extracted ++ [cleaned])
      else scan_lines lines' extracted
  end.

(** The loop of the fallback, over the sentences. *)
Fixpoint scan_sentences (sentences : list str) (extracted : list str)
    : list str :=
  match sentences with
  | [] => extracted
  | sentence :: sentences' =>
      let s := Str.strip sentence in
      if Str.is_empty s then scan_sentences sentences' extracted
      else if _looks_imperative s then scan_sentences sentences' (extracted ++ [s])
      else scan_sentences sentences' extracted
  end.

(** [(?<=[.!?])\s+] *)
Definition SENTENCE_BOUNDARY : Re.regex :=
  Re.Seq
    (Re.Behind (fun c => (c =? 0x2E) || (c =? 0x21) || (c =? 0x3F)))
    (Re.Plus Str.isspace).

(** The last loop, which removes duplicates. *)
Fixpoint dedup_loop (extracted : list str) (seen : gset str)
    (unique : list str) : list str :=
  match extracted with
  | [] => unique
  | item :: extracted' =>
      let lowered := lower item in
      if bool_decide (lowered ∈ seen) then dedup_loop extracted' seen unique
      else dedup_loop extracted' ({[lowered]} ∪ seen) (unique ++ [item])
  end.

(** What the line tier finds: [extracted] after the first loop. *)
Definition line_items (text : str) : list str :=
  scan_lines (Str.splitlines text) [].

(** What the fallback appends when it runs. *)
Definition fallback_items (text : str) : list str :=
  scan_sentences (Re.split SENTENCE_BOUNDARY (Str.strip text)) [].

(** [extracted] when the last loop starts. *)
Definition extracted_items (text : str) : list str :=
  let extracted := line_items text in
  if Str.is_empty extracted then
    scan_sentences (Re.split SENTENCE_BOUNDARY (Str.strip text)) extracted
  else extracted.

Definition extract_action_items (text : str) : list str :=
  dedup_loop (extracted_items text) ∅ [].

End Extract.


(** ** The store ([week2/app/db.py], [week2/app/exceptions.py]) *)

Module Db.

Local Open Scope Z_scope.

(** The exceptions that travel through the database layer:
    [sqlite3.Error] and the classes of [exceptions.py]. *)
Inductive exn : Type :=
| Sqlite3Error (msg : string)
| DatabaseError (msg : string)
| NoteNotFoundError (note_id : Z)
| ActionItemNotFoundError (action_item_id : Z).

(** [str(e)]: the message given to [super().__init__]. *)
Definition exn_str (e : exn) : string :=
  match e with
  | Sqlite3Error msg => msg
  | DatabaseError msg => msg
  | NoteNotFoundError note_id =>
      "Note with id " +:+ pretty note_id +:+ " not found"
  | ActionItemNotFoundError action_item_id =>
      "Action item with id " +:+ pretty action_item_id +:+ " not found"
  end.

(** The classes named by the [except] clauses. *)
Inductive exn_class : Type :=
| Exception_
| sqlite3_Error
| DatabaseError_
| NoteNotFoundError_
| ActionItemNotFoundError_.

(** [isinstance(e, cls)]: both not-found classes derive from
    [DatabaseError], which derives from [Exception], as [sqlite3.Error]
    does. *)
Definition isinstance (e : exn) (cls : exn_class) : bool :=
  match cls, e with
  | Exception_, _ => true
  | sqlite3_Error, Sqlite3Error _ => true
  | DatabaseError_, (DatabaseError _ | NoteNotFoundError _ | ActionItemNotFoundError _) => true
  | NoteNotFoundError_, NoteNotFoundError _ => true
  | ActionItemNotFoundError_, ActionItemNotFoundError _ => true
  | _, _ => false
  end.

Inductive result (A : Type) : Type :=
| Return (a : A)
| Raise (e : exn).
Arguments Return {A} a.
Arguments Raise {A} e.

(** The rows of the two tables of [init_db], keyed by their [id]. *)
Record note_row : Type := {
  content : str;
  note_created_at : string
}.

Record action_item_row : Type := {
  note_id : option Z;
  text : str;
  done : Z;
  created_at : string
}.

Record database : Type := {
  notes : gmap Z note_row;
  action_items : gmap Z action_item_row
}.

(** [with get_connection() as connection: body].  The body runs on the
    connection's view of the database.  When it ends without an
    exception the view is committed; an exception of the body is thrown
    into the generator at its [yield], where the two handlers roll the
    view back and raise a [DatabaseError] in its place.  Creating the
    directory and opening the file are taken to succeed. *)
Definition get_connection {A} (db : database)
    (body : database -> result A * database) : result A * database :=
  let '(r, view) := body db in
  match r with
  | Return a => (Return a, view)
  | Raise e =>
      if isinstance e sqlite3_Error then
        (Raise (DatabaseError ("Database operation failed: " +:+ exn_str e)), db)
      else if isinstance e Exception_ then
        (Raise (DatabaseError ("Unexpected database error: " +:+ exn_str e)), db)
      else (Raise e, db)
  end.

(** [cursor.execute("UPDATE action_items SET done = ? WHERE id = ?", (d, id))]
    and the [cursor.rowcount] it leaves.  [fault] is the error, if any,
    that sqlite reports for the statement. *)
Definition execute_update_done (fault : option string) (conn : database)
    (d : Z) (id : Z) : result nat * database :=
  match fault with
  | Some msg => (Raise (Sqlite3Error msg), conn)
  | None =>
      match action_items conn !! id with
      | Some row =>
          (Return 1%nat,
           {| notes := notes conn;
              action_items :=
                <[id := {| note_id := note_id row; text := text row;
                           done := d; created_at := created_at row |}]>
                  (action_items conn) |})
      | None => (Return 0%nat, conn)
      end
  end.

Definition mark_action_item_done (fault : option string) (db : database)
    (action_item_id : Z) (done : bool) : result unit * database :=
  let '(r, db') :=
    get_connection db (fun connection =>
      let '(r, connection') :=
        execute_update_done fault connection (if done then 1 else 0)
          action_item_id in
      match r with
      | Raise e => (Raise e, connection')
      | Return rowcount =>
          if (rowcount =? 0)%nat
          then (Raise (ActionItemNotFoundError action_item_id), connection')
          else (Return tt, connection')
      end) in
  match r with
  | Return _ => (Return tt, db')
  | Raise e =>
      if isinstance e ActionItemNotFoundError_ then (Raise e, db')
      else if isinstance e sqlite3_Error then
        (Raise (DatabaseError ("Failed to update action item: " +:+ exn_str e)), db')
      else (Raise e, db')
  end.

(** [get_action_item]: the row as the [SELECT] returns it, if any. *)
Definition get_action_item (db : database) (action_item_id : Z)
    : result (option action_item_row) * database :=
  get_connection db (fun connection =>
    (Return (action_items connection !! action_item_id), connection)).

(** *** Insertions and reads

    What sqlite holds besides the rows, or settles, when the statements of
    a call run: the largest id that each table has ever held, as
    [sqlite_sequence] records it for an [AUTOINCREMENT] key; the clock that
    [datetime('now')] reads, and the error, if any, that sqlite reports,
    for each statement of the call by its rank. *)
Record sqlite_env : Type := {
  notes_seq : Z;
  action_items_seq : Z;
  now : nat → string;
  fault_at : nat → option string
}.

(** The largest id of a table (0 when the table is empty). *)
Definition max_rowid {A} (table : gmap Z A) : Z :=
  foldr Z.max 0 (map_to_list table).*1.

(** The largest id of a 64-bit key. *)
Definition MAX_ROWID : Z := 9223372036854775807.

(** [cursor.lastrowid] of an [INSERT] into a table whose key is
    [INTEGER PRIMARY KEY AUTOINCREMENT]: one more than the largest id that
    the table holds or has ever held; an error once the largest id of all
    has been used. *)
Definition next_rowid {A} (table : gmap Z A) (seq : Z) : result Z :=
  let largest := Z.max (max_rowid table) seq in
  if MAX_ROWID <=? largest
  then Raise (Sqlite3Error "database or disk is full")
  else Return (largest + 1).

(** [cursor.execute("INSERT INTO notes (content) VALUES (?)", (content,))],
    as statement [k] of the call. *)
Definition execute_insert_note (env : sqlite_env) (k : nat) (conn : database)
    (content_ : str) : result Z * database :=
  match fault_at env k with
  | Some msg => (Raise (Sqlite3Error msg), conn)
  | None =>
      match next_rowid (notes conn) (notes_seq env) with
      | Raise e => (Raise e, conn)
      | Return lastrowid =>
          (Return lastrowid,
           {| notes :=
                <[lastrowid := {| content := content_;
                                  note_created_at := now env k |}]>
                  (notes conn);
              action_items := action_items conn |})
      end
  end.

(** The [note_id] of a new action item names a note that the table does
    not hold. *)
Definition dangling (conn : database) (note_id_ : option Z) : bool :=
  match note_id_ with
  | Some n =>
      match notes conn !! n with
      | Some _ => false
      | None => true
      end
  | None => false
  end.

(** [cursor.execute("INSERT INTO action_items (note_id, text) VALUES (?, ?)",
    (note_id, item))], as statement [k] of the call.  With
    [PRAGMA foreign_keys = ON] a [note_id] that is not [NULL] has to be
    the id of a note. *)
Definition execute_insert_action_item (env : sqlite_env) (k : nat)
    (conn : database) (note_id_ : option Z) (item : str)
    : result Z * database :=
  match fault_at env k with
  | Some msg => (Raise (Sqlite3Error msg), conn)
  | None =>
      match next_rowid (action_items conn) (action_items_seq env) with
      | Raise e => (Raise e, conn)
      | Return lastrowid =>
          if dangling conn note_id_
          then (Raise (Sqlite3Error "FOREIGN KEY constraint failed"), conn)
          else
            (Return lastrowid,
             {| notes := notes conn;
                action_items :=
                  <[lastrowid := {| note_id := note_id_; text := item;
                                    done := 0; created_at := now env k |}]>
                    (action_items conn) |})
      end
  end.

(** The handlers around the [with] block of a function of the layer:
    [except sqlite3.Error as e: raise DatabaseError(f"{prefix}: {e}")]. *)
Definition or_database_error {A} (prefix : string)
    (outcome : result A * database) : result A * database :=
  match outcome with
  | (Return a, db) => (Return a, db)
  | (Raise e, db) =>
      if isinstance e sqlite3_Error
      then (Raise (DatabaseError (prefix +:+ ": " +:+ exn_str e)), db)
      else (Raise e, db)
  end.

Definition insert_note (env : sqlite_env) (db : database) (content_ : str)
    : result Z * database :=
  or_database_error "Failed to insert note"
    (get_connection db (fun connection =>
       execute_insert_note env 0 connection content_)).

(** [get_note]: the row as the [SELECT] returns it, if any. *)
Definition get_note (db : database) (note_id_ : Z)
    : result (option note_row) * database :=
  or_database_error "Failed to get note"
    (get_connection db (fun connection =>
       (Return (notes connection !! note_id_), connection))).

(** The loop of [insert_action_items]; statement [k] inserts the first of
    [items]. *)
Fixpoint insert_each (env : sqlite_env) (k : nat) (connection : database)
    (note_id_ : option Z) (items : list str) (ids : list Z)
    : result (list Z) * database :=
  match items with
  | [] => (Return ids, connection)
  | item :: items' =>
      match execute_insert_action_item env k connection note_id_ item with
      | (Raise e, connection') => (Raise e, connection')
      | (Return lastrowid, connection') =>
          insert_each env (S k) connection' note_id_ items' (ids ++ [lastrowid])
      end
  end.

Definition insert_action_items (env : sqlite_env) (db : database)
    (items : list str) (note_id_ : option Z) : result (list Z) * database :=
  if Str.is_empty items then (Return [], db)
  else
    or_database_error "Failed to insert action items"
      (get_connection db (fun connection =>
         insert_each env 0 connection note_id_ items [])).

(** *** The parameters of a statement

    [cursor.execute] binds its parameters before sqlite runs the
    statement.  The [sqlite3] module binds a Python [int] that fits in 64
    bits and a [str] that encodes as UTF-8, so without a lone surrogate,
    in at most [INT_MAX] bytes; for any other parameter it raises an
    [OverflowError] or a [UnicodeEncodeError], which are no
    [sqlite3.Error] and which [get_connection] reports as an "Unexpected
    database error".  The operations of this module are those of a call
    whose parameters bind; the properties of a call that depend on it
    say so. *)
Definition INT_MAX : Z := 2147483647.

Definition binds_int (n : Z) : bool :=
  (- 9223372036854775808 <=? n) && (n <=? 9223372036854775807).

Definition binds_note_id (note_id_ : option Z) : bool :=
  match note_id_ with
  | Some n => binds_int n
  | None => true
  end.

Definition is_surrogate (c : char) : bool :=
  ((0xD800 <=? c) && (c <=? 0xDFFF))%N.

(** The bytes of a code point in UTF-8. *)
Definition utf8_size (c : char) : Z :=
  if (c <? 0x80)%N then 1
  else if (c <? 0x800)%N then 2
  else if (c <? 0x10000)%N then 3
  else 4.

Definition utf8_length (s : str) : Z :=
  foldr (λ c n, utf8_size c + n) 0 s.

Definition binds_text (s : str) : bool :=
  forallb (λ c, negb (is_surrogate c)) s && (utf8_length s <=? INT_MAX).

(** *** Listings *)

(** The ids of a table in the order of [ORDER BY id DESC]. *)
Definition ids_desc {A} (table : gmap Z A) : list Z :=
  merge_sort (flip Z.le) (elements (dom table)).

(** The rows of a table in that order, each with its id. *)
Definition rows_desc {A} (table : gmap Z A) : list (Z * A) :=
  omap (λ id, pair id <$> table !! id) (ids_desc table).

(** [WHERE note_id = ?] *)
Definition of_note (n : Z) (entry : Z * action_item_row) : bool :=
  match note_id entry.2 with
  | Some m => m =? n
  | None => false
  end.

Definition list_notes (db : database)
    : result (list (Z * note_row)) * database :=
  or_database_error "Failed to list notes"
    (get_connection db (fun connection =>
       (Return (rows_desc (notes connection)), connection))).

Definition list_action_items (db : database) (note_id_ : option Z)
    : result (list (Z * action_item_row)) * database :=
  or_database_error "Failed to list action items"
    (get_connection db (fun connection =>
       match note_id_ with
       | None => (Return (rows_desc (action_items connection)), connection)
       | Some n =>
           (Return (List.filter (of_note n)
                      (rows_desc (action_items connection))), connection)
       end)).

End Db.

(** ** The order of the stripping steps, as the specification words it *)

Section Markup.

Variable unicode_decimal : char -> bool.

(** Remove a leading bullet or numbering through the pattern of the
    classification, and trim. *)
Definition strip_bullet_prefix (line : str) : str :=
  Str.strip (Re.sub_empty (BULLET_PREFIX_PATTERN unicode_decimal) line).

(** Remove a leading ["[ ]"], and trim. *)
Definition strip_checkbox (s : str) : str :=
  Str.strip (Str.removeprefix s (py "[ ]")).

(** Remove a leading ["[todo]"], and trim. *)
Definition strip_todo_marker (s : str) : str :=
  Str.strip (Str.removeprefix s (py "[todo]")).

Definition strip_markup (line : str) : str :=
  strip_todo_marker (strip_checkbox (strip_bullet_prefix line)).

End Markup.

(** [l[i]] is the first item of [l] with its key. *)
Definition first_occurrence (key : str -> str) (l : list str) (i : nat)
    (x : str) : Prop :=
  l !! i = Some x ∧ ∀ j y, (j < i)%nat → l !! j = Some y → key y ≠ key x.

Definition nonblank (s : str) : bool := negb (Str.is_empty s).

(** ** What the fallback adds *)

(** The items that the fallback appends to [extracted]: the items of
    [extracted], when the last loop starts, that come after those of the
    first loop. *)
Definition fallback_contribution (unicode_lower : str → str)
    (unicode_decimal : char → bool) (text : str) : list str :=
  drop (length (line_items unicode_lower unicode_decimal text))
    (extracted_items unicode_lower unicode_decimal text).

(** The trimmed sentences of a text that are not blank and look
    imperative, in their order. *)
Definition imperative_sentences (unicode_lower : str → str) (text : str)
    : list str :=
  List.filter (_looks_imperative unicode_lower)
    (List.filter nonblank
       (map Str.strip (Re.split SENTENCE_BOUNDARY (Str.strip text)))).

(** ** Inputs of the scenarios *)

Definition keyword_notes : str :=
  py "TODO: Fix the bug" ++ LF ++ py "action: Update auth" ++ LF
  ++ py "next: Test feature" ++ LF ++ py "todo: Review PRs".

Definition imperative_notes : str :=
  py "Implement the new feature by next week." ++ LF
  ++ py "This is just a regular sentence." ++ LF
  ++ py "Create a user dashboard.".

Definition narrative_notes : str :=
  py "Just narrative text with no markers and no imperative openers.".

(** A store with one action item, of id 1, not done. *)
Definition one_item_store : Db.database :=
  {| Db.notes := ∅;
     Db.action_items :=
       {[ 1%Z := {| Db.note_id := None; Db.text := py "Write unit tests";
                    Db.done := 0%Z;
                    Db.created_at := "2024-12-27 10:00:00" |} ]} |}.

(** ** The tables of ASCII

    The instance in which no character outside ASCII has a lower-case
    form or is a decimal digit. *)

Definition ascii_lower_table (s : str) : str := map Str.ascii_lower s.
Definition ascii_decimal_table (c : char) : bool := false.

Definition blank_notes : str :=
  py "   " ++ LF ++ LF ++ [9] ++ py "  " ++ LF ++ py "  ".

Definition repeated_notes : str :=
  py "- Set up database" ++ LF ++ py "- SET UP DATABASE" ++ LF
  ++ py "- Implement API".

(** ** The extraction through the language model ([extract.py])

    What the call of [chat] and the reading of its answer come to: the
    call raises; the response has no [message.content]; the content is
    not the JSON of an [ActionItemsResponse]; or it is, with these
    [action_items]. *)
Inductive llm_reply : Type :=
| ChatRaises
| NoContent
| InvalidContent
| ActionItems (action_items : list str).

(** [extract_action_items_llm], by the reply of the model to the prompt
    made of the text. *)
Definition extract_action_items_llm (reply : llm_reply) : list str :=
  match reply with
  | ActionItems action_items =>
      map Str.strip
        (List.filter
           (fun item =>
              negb (Str.is_empty item) && negb (Str.is_empty (Str.strip item)))
           action_items)
  | ChatRaises | NoContent | InvalidContent => []
  end.

(** ** The requests ([week2/app/schemas.py]) *)

Module Schemas.

(** A field [str] with [min_length=1] and the validator of its class,
    which runs once the length is checked: the value that the request
    holds, or none when the validation fails. *)
Definition validated (v : str) : option str :=
  if (length v <? 1)%nat then None
  else
    let stripped := Str.strip v in
    if Str.is_empty stripped then None else Some stripped.

(** [NoteCreateRequest.content] *)
Definition validate_content (v : str) : option str := validated v.

(** [ExtractActionItemsRequest.text] *)
Definition validate_text (v : str) : option str := validated v.

Record ExtractActionItemsRequest : Type := {
  text : str;
  save_note : bool;
  use_llm : bool
}.

End Schemas.

(** ** The endpoints ([week2/app/routers]) *)

Module Api.

(** What a handler comes to: the body of the response, an
    [HTTPException], or an exception that leaves the handler. *)
Inductive http (A : Type) : Type :=
| Ok (body : A)
| HTTPException (status_code : Z) (detail : string)
| Unhandled (e : Db.exn).
Arguments Ok {A} body.
Arguments HTTPException {A} status_code detail.
Arguments Unhandled {A} e.

Record NoteResponse : Type := {
  nr_id : Z;
  nr_content : str;
  nr_created_at : string
}.

Record ActionItemResponse : Type := {
  ai_id : Z;
  ai_note_id : option Z;
  ai_text : str;
  ai_done : bool;
  ai_created_at : string
}.

Record ExtractActionItemsResponse : Type := {
  er_note_id : option Z;
  er_items : list ActionItemResponse;
  er_extraction_method : string
}.

Record MarkActionItemDoneResponse : Type := {
  md_id : Z;
  md_done : bool
}.

(** The handlers at the end of an endpoint, for an exception [e] of the
    database layer: [except DatabaseError as e] answers 500 with
    [str(e)]. *)
Definition database_error_500 {A} (e : Db.exn) : http A :=
  if Db.isinstance e Db.DatabaseError_
  then HTTPException 500 (Db.exn_str e)
  else Unhandled e.

(** [notes.create_note] *)
Definition create_note (env : Db.sqlite_env) (db : Db.database)
    (content : str) : http NoteResponse * Db.database :=
  match Db.insert_note env db content with
  | (Db.Raise e, db1) => (database_error_500 e, db1)
  | (Db.Return note_id, db1) =>
      match Db.get_note db1 note_id with
      | (Db.Raise e, db2) => (database_error_500 e, db2)
      | (Db.Return None, db2) =>
          (HTTPException 500 "Note was created but could not be retrieved", db2)
      | (Db.Return (Some note), db2) =>
          (Ok {| nr_id := note_id; nr_content := Db.content note;
                 nr_created_at := Db.note_created_at note |}, db2)
      end
  end.

(** [notes.get_single_note] *)
Definition get_single_note (db : Db.database) (note_id : Z)
    : http NoteResponse * Db.database :=
  match Db.get_note db note_id with
  | (Db.Raise e, db1) =>
      if Db.isinstance e Db.NoteNotFoundError_
      then (HTTPException 404 (Db.exn_str e), db1)
      else (database_error_500 e, db1)
  | (Db.Return None, db1) =>
      (HTTPException 404 (Db.exn_str (Db.NoteNotFoundError note_id)), db1)
  | (Db.Return (Some note), db1) =>
      (Ok {| nr_id := note_id; nr_content := Db.content note;
             nr_created_at := Db.note_created_at note |}, db1)
  end.




(** [action_items.mark_done] *)
Definition mark_done (fault : option string) (db : Db.database)
    (action_item_id : Z) (request_done : bool)
    : http MarkActionItemDoneResponse * Db.database :=
  match Db.mark_action_item_done fault db action_item_id request_done with
  | (Db.Return _, db1) =>
      (Ok {| md_id := action_item_id; md_done := request_done |}, db1)
  | (Db.Raise e, db1) =>
      if Db.isinstance e Db.ActionItemNotFoundError_
      then (HTTPException 404 (Db.exn_str e), db1)
      else (database_error_500 e, db1)
  end.

(** The loop of [action_items.extract] that reads the time of creation of
    each item back from the store. *)
Fixpoint fetch_created_at (db : Db.database)
    (action_items : list ActionItemResponse)
    : Db.result (list ActionItemResponse) * Db.database :=
  match action_items with
  | [] => (Db.Return [], db)
  | action_item :: rest =>
      match Db.get_action_item db (ai_id action_item) with
      | (Db.Raise e, db1) => (Db.Raise e, db1)
      | (Db.Return db_item, db1) =>
          let action_item' :=
            match db_item with
            | Some row =>
                {| ai_id := ai_id action_item;
                   ai_note_id := ai_note_id action_item;
                   ai_text := ai_text action_item;
                   ai_done := ai_done action_item;
                   ai_created_at := Db.created_at row |}
            | None => action_item
            end in
          match fetch_created_at db1 rest with
          | (Db.Raise e, db2) => (Db.Raise e, db2)
          | (Db.Return rest', db2) => (Db.Return (action_item' :: rest'), db2)
          end
      end
  end.

(** The handlers at the end of [action_items.extract] and of
    [action_items.extract_llm]: a [DatabaseError] answers 500 with
    [str(e)], any other exception 500 with [f"{prefix}: {str(e)}"]. *)
Definition extraction_error_500 {A} (prefix : string) (e : Db.exn) : http A :=
  if Db.isinstance e Db.DatabaseError_
  then HTTPException 500 (Db.exn_str e)
  else if Db.isinstance e Db.Exception_
  then HTTPException 500 (prefix +:+ ": " +:+ Db.exn_str e)
  else Unhandled e.

(** The start of both handlers: the note is saved when the request asks
    for it. *)
Definition saved_note (note_env : Db.sqlite_env) (db : Db.database)
    (request : Schemas.ExtractActionItemsRequest)
    : Db.result (option Z) * Db.database :=
  if Schemas.save_note request then
    match Db.insert_note note_env db (Schemas.text request) with
    | (Db.Raise e, db1) => (Db.Raise e, db1)
    | (Db.Return note_id, db1) => (Db.Return (Some note_id), db1)
    end
  else (Db.Return None, db).

(** The end of both handlers, from the insertion of the items on. *)
Definition respond_with_items (prefix : string) (items_env : Db.sqlite_env)
    (db1 : Db.database) (note_id : option Z) (items : list str)
    (extraction_method : string)
    : http ExtractActionItemsResponse * Db.database :=
  let inserted :=
    if Str.is_empty items then (Db.Return [], db1)
    else Db.insert_action_items items_env db1 items note_id in
  match inserted with
  | (Db.Raise e, db2) => (extraction_error_500 prefix e, db2)
  | (Db.Return item_ids, db2) =>
      let action_items :=
        map (fun '(item_id, item_text) =>
               {| ai_id := item_id; ai_note_id := note_id;
                  ai_text := item_text; ai_done := false;
                  ai_created_at := "" |})
          (combine item_ids items) in
      match fetch_created_at db2 action_items with
      | (Db.Raise e, db3) => (extraction_error_500 prefix e, db3)
      | (Db.Return action_items', db3) =>
          (Ok {| er_note_id := note_id; er_items := action_items';
                 er_extraction_method := extraction_method |}, db3)
      end
  end.

(** [action_items.extract_llm].  [note_env] and [items_env] are what
    sqlite brings to the two insertions and [reply] is the reply of the
    language model. *)
Definition extract_llm (note_env items_env : Db.sqlite_env)
    (reply : llm_reply) (db : Db.database)
    (request : Schemas.ExtractActionItemsRequest)
    : http ExtractActionItemsResponse * Db.database :=
  match saved_note note_env db request with
  | (Db.Raise e, db1) => (extraction_error_500 "LLM extraction failed" e, db1)
  | (Db.Return note_id, db1) =>
      respond_with_items "LLM extraction failed" items_env db1 note_id
        (extract_action_items_llm reply) "llm"
  end.

Section Extract.

Variable unicode_lower : str -> str.
Variable unicode_decimal : char -> bool.

(** [action_items.extract], with the reply of the language model should
    it be asked. *)
Definition extract (note_env items_env : Db.sqlite_env) (reply : llm_reply)
    (db : Db.database) (request : Schemas.ExtractActionItemsRequest)
    : http ExtractActionItemsResponse * Db.database :=
  match saved_note note_env db request with
  | (Db.Raise e, db1) => (extraction_error_500 "Extraction failed" e, db1)
  | (Db.Return note_id, db1) =>
      let '(items, extraction_method) :=
        if Schemas.use_llm request
        then (extract_action_items_llm reply, "llm")
        else (extract_action_items unicode_lower unicode_decimal
                (Schemas.text request), "heuristic") in
      respond_with_items "Extraction failed" items_env db1 note_id items
        extraction_method
  end.

End Extract.

Record NoteListResponse : Type := {
  nl_notes : list NoteResponse;
  nl_count : nat
}.

(** The response for a row of [notes]. *)
Definition listed_note (entry : Z * Db.note_row) : NoteResponse :=
  {| nr_id := entry.1; nr_content := Db.content entry.2;
     nr_created_at := Db.note_created_at entry.2 |}.

(** [notes.list_all_notes] *)
Definition list_all_notes (db : Db.database)
    : http NoteListResponse * Db.database :=
  match Db.list_notes db with
  | (Db.Raise e, db1) => (database_error_500 e, db1)
  | (Db.Return rows, db1) =>
      let notes := map listed_note rows in
      (Ok {| nl_notes := notes; nl_count := length notes |}, db1)
  end.

End Api.

(** ** Ids of new rows *)

(** The largest id that the table of the action items holds or has ever
    held: a new row gets the next one. *)
Definition action_items_base (env : Db.sqlite_env) (db : Db.database) : Z :=
  Z.max (Db.max_rowid (Db.action_items db)) (Db.action_items_seq env).

Definition notes_base (env : Db.sqlite_env) (db : Db.database) : Z :=
  Z.max (Db.max_rowid (Db.notes db)) (Db.notes_seq env).

(** The ids of [n] rows inserted one after the other above [base]. *)
Definition ids_above (base : Z) (n : nat) : list Z :=
  (λ j : nat, (base + 1 + Z.of_nat j)%Z) <$> seq 0 n.

(** The response for an item as [action_items.extract] first builds it,
    and with the time of creation that the loop reads back. *)
Definition new_response (note_id : option Z) (entry : Z * str)
    : Api.ActionItemResponse :=
  {| Api.ai_id := entry.1; Api.ai_note_id := note_id;
     Api.ai_text := entry.2; Api.ai_done := false;
     Api.ai_created_at := "" |}.

Definition fetched (db : Db.database) (action_item : Api.ActionItemResponse)
    : Api.ActionItemResponse :=
  match Db.action_items db !! Api.ai_id action_item with
  | Some row =>
      {| Api.ai_id := Api.ai_id action_item;
         Api.ai_note_id := Api.ai_note_id action_item;
         Api.ai_text := Api.ai_text action_item;
         Api.ai_done := Api.ai_done action_item;
         Api.ai_created_at := Db.created_at row |}
  | None => action_item
  end.

(** The responses for items stored one after the other above [base]:
    the item of rank [j] has the id [base + 1 + j], is not done, and was
    created at the time of statement [j]. *)
Definition stored_responses (env : Db.sqlite_env) (base : Z)
    (note_id : option Z) (items : list str) : list Api.ActionItemResponse :=
  imap (λ (j : nat) item,
          {| Api.ai_id := (base + 1 + Z.of_nat j)%Z;
             Api.ai_note_id := note_id; Api.ai_text := item;
             Api.ai_done := false;
             Api.ai_created_at := Db.now env j |}) items.

(** The items that a request asks for, and the name of the method. *)
Definition requested_items (unicode_lower : str → str)
    (unicode_decimal : char → bool) (reply : llm_reply)
    (request : Schemas.ExtractActionItemsRequest) : list str :=
  if Schemas.use_llm request then extract_action_items_llm reply
  else extract_action_items unicode_lower unicode_decimal
         (Schemas.text request).

Definition requested_method (request : Schemas.ExtractActionItemsRequest)
    : string :=
  if Schemas.use_llm request then "llm" else "heuristic".

(** ** Runs of sqlite for the instances *)

(** A run without errors, on tables that have held no other rows than
    the ones they hold. *)
Definition quiet_env : Db.sqlite_env :=
  {| Db.notes_seq := 0; Db.action_items_seq := 1;
     Db.now := λ _, "2024-12-27 10:30:00";
     Db.fault_at := λ _, None |}.

(** A run in which the database is locked at the first statement. *)
Definition locked_env : Db.sqlite_env :=
  {| Db.notes_seq := 0; Db.action_items_seq := 1;
     Db.now := λ _, "2024-12-27 10:30:00";
     Db.fault_at := λ k, match k with
                         | O => Some "database is locked"
                         | S _ => None
                         end |}.

(** A request for the heuristic extraction of two bullets, with the
    note. *)
Definition bullets_request : Schemas.ExtractActionItemsRequest :=
  {| Schemas.text := py "- Set up database" ++ LF ++ py "* Implement API";
     Schemas.save_note := true;
     Schemas.use_llm := false |}.

(** ** Listed rows *)



(** The rows that a listing keeps: all of them, or those of a note. *)
Definition listed_for (note_id : option Z) (row : Db.action_item_row)
    : Prop :=
  match note_id with
  | None => True
  | Some n => Db.note_id row = Some n
  end.

(** ** Pieces of a text *)

(** [x] is a run of consecutive characters of [s]. *)
Definition substring (x s : str) : Prop :=
  ∃ before after, s = before ++ x ++ after.

(** A pattern that, like one that starts with [^], matches nowhere but at
    the start of the string. *)
Definition anchored (r : Re.regex) : Prop :=
  ∀ c s, Re.match_here r (Some c) s = None.

(** ** Lines with a list marker *)

(** The list markers of a line of ASCII: a hyphen, an asterisk, or digits
    from 0 to 9 and a full stop. *)
Inductive ascii_marker : str → Prop :=
| marker_hyphen : ascii_marker (py "-")
| marker_asterisk : ascii_marker (py "*")
| marker_number (digits : str) :
    digits ≠ [] → Forall (λ c, 0x30 ≤ c ≤ 0x39) digits →
    ascii_marker (digits ++ py ".").

(** The character before the rest of a string, once [run] is read. *)
Fixpoint last_read (prev : option char) (run : str) : option char :=
  match run with
  | [] => prev
  | c :: run' => last_read (Some c) run'
  end.

(** [s] does not start with a character of the class. *)
Definition stops (p : char → bool) (s : str) : Prop :=
  match s with
  | [] => True
  | c :: _ => p c = false
  end.

(** * Properties *)

(** ** Strings *)

Lemma drop_while_all (p : char -> bool) (s : str) :
  Forall (λ c, p c = true) s → Str.drop_while p s = [].
Proof.
  induction 1 as [|c s Hc _ IH]; simpl; [done|]. by rewrite Hc.
Qed.

Lemma strip_whitespace (s : str) :
  Forall (λ c, Str.isspace c = true) s → Str.strip s = [].
Proof.
  intros Hs. unfold Str.strip, Str.lstrip, Str.rstrip.
  by rewrite (drop_while_all _ _ Hs).
Qed.

(** Every line of [splitlines] is made of characters of the text. *)
Lemma splitlines_from_Forall (P : char → Prop) (n : nat) :
  ∀ s cur, (length s ≤ n)%nat → Forall P s → Forall P cur →
    Forall (Forall P) (Str.splitlines_from s cur).
Proof.
  induction n as [|n IH]; intros [|c s] cur Hn Hs Hcur;
    cbn [Str.splitlines_from length] in *; try lia.
  - destruct (Str.is_empty cur); repeat constructor. by apply Forall_rev.
  - destruct (Str.is_empty cur); repeat constructor. by apply Forall_rev.
  - inversion Hs as [|? ? Hc Hs']; subst.
    destruct (Str.islinebreak c).
    + constructor; [by apply Forall_rev|].
      destruct s as [|c' s'']; [apply IH; simpl; [lia|done|done]|].
      destruct ((c =? 13) && (c' =? 10)).
      * inversion Hs'; subst. apply IH; simpl in *; [lia|done|done].
      * apply IH; simpl in *; [lia|done|done].
    + apply IH; [lia|done|by constructor].
Qed.

Lemma splitlines_Forall (P : char → Prop) (s : str) :
  Forall P s → Forall (Forall P) (Str.splitlines s).
Proof.
  intros Hs. by apply (splitlines_from_Forall P (length s)).
Qed.

(** ** The three loops of the extractor *)

Section Loops.

Variable unicode_lower : str -> str.
Variable unicode_decimal : char -> bool.

Local Abbreviation lower := (lower unicode_lower).
Local Abbreviation is_action := (_is_action_line unicode_lower unicode_decimal).
Local Abbreviation imperative := (_looks_imperative unicode_lower).
Local Abbreviation dedup := (dedup_loop unicode_lower).

(** The first loop appends, for the trimmed lines that are not blank and
    classify, their stripped form, in the order of the lines. *)
Lemma scan_lines_filter (lines extracted : list str) :
  scan_lines unicode_lower unicode_decimal lines extracted =
  extracted ++
    map (strip_markup unicode_decimal)
      (List.filter is_action (List.filter nonblank (map Str.strip lines))).
Proof.
  revert extracted.
  induction lines as [|raw_line lines IH]; intros extracted;
    cbn [scan_lines map List.filter].
  - by rewrite app_nil_r.
  - unfold nonblank at 1.
    destruct (Str.is_empty (Str.strip raw_line)); cbn [negb]; [apply IH|].
    cbn [List.filter].
    destruct (is_action (Str.strip raw_line)); [|apply IH].
    rewrite IH. cbn [map]. by rewrite <- app_assoc.
Qed.

(** The loop of the fallback appends the trimmed sentences that are
    not blank and look imperative, in the order of the sentences. *)
Lemma scan_sentences_filter (sentences extracted : list str) :
  scan_sentences unicode_lower sentences extracted =
  extracted ++
    List.filter imperative (List.filter nonblank (map Str.strip sentences)).
Proof.
  revert extracted.
  induction sentences as [|sentence sentences IH]; intros extracted;
    cbn [scan_sentences map List.filter].
  - by rewrite app_nil_r.
  - unfold nonblank at 1.
    destruct (Str.is_empty (Str.strip sentence)); cbn [negb]; [apply IH|].
    cbn [List.filter].
    destruct (imperative (Str.strip sentence)); [|apply IH].
    rewrite IH. by rewrite <- app_assoc.
Qed.

(** Blank lines leave [extracted] as it is. *)
Lemma scan_lines_blank (lines extracted : list str) :
  Forall (Forall (λ c, Str.isspace c = true)) lines →
  scan_lines unicode_lower unicode_decimal lines extracted = extracted.
Proof.
  induction 1 as [|raw_line lines Hline _ IH]; cbn [scan_lines]; [done|].
  by rewrite (strip_whitespace _ Hline).
Qed.

(** The last loop only ever appends to [unique]. *)
Lemma dedup_loop_app (extracted : list str) (seen : gset str)
    (unique : list str) :
  dedup extracted seen unique = unique ++ dedup extracted seen [].
Proof.
  revert seen unique.
  induction extracted as [|item extracted IH]; intros seen unique;
    cbn [dedup_loop].
  - by rewrite app_nil_r.
  - case_bool_decide; [apply IH|].
    rewrite (IH _ (unique ++ [item])), (IH _ ([] ++ [item])).
    by rewrite <- app_assoc.
Qed.

Lemma dedup_loop_seen (item : str) (extracted : list str) (seen : gset str) :
  lower item ∈ seen →
  dedup (item :: extracted) seen [] = dedup extracted seen [].
Proof. intros Hin. cbn [dedup_loop]. by rewrite bool_decide_eq_true_2. Qed.

Lemma dedup_loop_fresh (item : str) (extracted : list str) (seen : gset str) :
  lower item ∉ seen →
  dedup (item :: extracted) seen [] =
  item :: dedup extracted ({[lower item]} ∪ seen) [].
Proof.
  intros Hin. cbn [dedup_loop]. rewrite bool_decide_eq_false_2 by done.
  by rewrite dedup_loop_app.
Qed.

(** No kept item has a key that was seen before the loop. *)
Lemma dedup_loop_not_seen (extracted : list str) (seen : gset str) (x : str) :
  x ∈ dedup extracted seen [] → lower x ∉ seen.
Proof.
  revert seen. induction extracted as [|item extracted IH]; intros seen.
  - cbn [dedup_loop]. by intros ?%elem_of_nil.
  - destruct (decide (lower item ∈ seen)) as [Hin|Hin].
    + rewrite dedup_loop_seen by done. apply IH.
    + rewrite dedup_loop_fresh by done.
      intros [->|Hx%IH]%elem_of_cons; [done|]. set_solver.
Qed.

Lemma dedup_loop_NoDup (extracted : list str) (seen : gset str) :
  NoDup (lower <$> dedup extracted seen []).
Proof.
  revert seen. induction extracted as [|item extracted IH]; intros seen.
  - cbn [dedup_loop]. constructor.
  - destruct (decide (lower item ∈ seen)) as [Hin|Hin].
    + rewrite dedup_loop_seen by done. apply IH.
    + rewrite dedup_loop_fresh by done. rewrite fmap_cons.
      constructor; [|apply IH].
      intros (y & Hy & Hin')%list_elem_of_fmap.
      apply dedup_loop_not_seen in Hin'. set_solver.
Qed.

Lemma dedup_loop_sublist (extracted : list str) (seen : gset str) :
  dedup extracted seen [] `sublist_of` extracted.
Proof.
  revert seen. induction extracted as [|item extracted IH]; intros seen.
  - done.
  - destruct (decide (lower item ∈ seen)) as [Hin|Hin].
    + rewrite dedup_loop_seen by done. by apply sublist_cons.
    + rewrite dedup_loop_fresh by done. by apply sublist_skip.
Qed.

(** A first occurrence whose key was not seen before the loop is kept. *)
Lemma dedup_loop_keeps (extracted : list str) (seen : gset str) (i : nat)
    (x : str) :
  first_occurrence lower extracted i x → lower x ∉ seen →
  ∃ p, dedup extracted seen [] !! p = Some x.
Proof.
  revert seen i.
  induction extracted as [|item extracted IH]; intros seen i [Hi Hfirst] Hx.
  - by rewrite lookup_nil in Hi.
  - destruct i as [|i].
    + injection Hi as ->. rewrite dedup_loop_fresh by done. by exists 0%nat.
    + assert (lower item ≠ lower x) as Hne
        by (apply (Hfirst 0%nat); [lia|done]).
      assert (first_occurrence lower extracted i x) as Hocc.
      { split; [done|]. intros j y Hj Hy. apply (Hfirst (S j)); [lia|done]. }
      destruct (decide (lower item ∈ seen)) as [Hin|Hin].
      * rewrite dedup_loop_seen by done. by apply (IH _ i).
      * rewrite dedup_loop_fresh by done.
        destruct (IH ({[lower item]} ∪ seen) i Hocc) as [p Hp];
          [set_solver|].
        by exists (S p).
Qed.

(** Two first occurrences are kept in the order they come in. *)
Lemma dedup_loop_order (extracted : list str) (seen : gset str) (i j : nat)
    (x y : str) :
  (i < j)%nat →
  first_occurrence lower extracted i x → lower x ∉ seen →
  first_occurrence lower extracted j y → lower y ∉ seen →
  ∃ p q, (p < q)%nat ∧ dedup extracted seen [] !! p = Some x
         ∧ dedup extracted seen [] !! q = Some y.
Proof.
  revert seen i j.
  induction extracted as [|item extracted IH];
    intros seen i j Hij [Hi Hfi] Hx [Hj Hfj] Hy.
  - by rewrite lookup_nil in Hi.
  - destruct j as [|j]; [lia|].
    assert (first_occurrence lower extracted j y) as Hoccy.
    { split; [done|]. intros k z Hk Hz. apply (Hfj (S k)); [lia|done]. }
    assert (lower item ≠ lower y) as Hney
      by (apply (Hfj 0%nat); [lia|done]).
    destruct i as [|i].
    + injection Hi as ->. rewrite dedup_loop_fresh by done.
      destruct (dedup_loop_keeps extracted ({[lower x]} ∪ seen) j y Hoccy)
        as [q Hq]; [set_solver|].
      exists 0%nat, (S q). split; [lia|done].
    + assert (first_occurrence lower extracted i x) as Hoccx.
      { split; [done|]. intros k z Hk Hz. apply (Hfi (S k)); [lia|done]. }
      assert (lower item ≠ lower x) as Hnex
        by (apply (Hfi 0%nat); [lia|done]).
      destruct (decide (lower item ∈ seen)) as [Hin|Hin].
      * rewrite dedup_loop_seen by done.
        apply (IH seen i j); [lia|done..].
      * rewrite dedup_loop_fresh by done.
        destruct (IH ({[lower item]} ∪ seen) i j) as (p & q & Hpq & Hp & Hq);
          [lia|done|set_solver|done|set_solver|].
        exists (S p), (S q). split; [lia|done].
Qed.

(** Every kept item is a first occurrence. *)
Lemma dedup_loop_first (extracted : list str) (seen : gset str) (x : str) :
  x ∈ dedup extracted seen [] →
  ∃ i, first_occurrence lower extracted i x.
Proof.
  revert seen. induction extracted as [|item extracted IH]; intros seen.
  - cbn [dedup_loop]. by intros ?%elem_of_nil.
  - destruct (decide (lower item ∈ seen)) as [Hin|Hin].
    + rewrite dedup_loop_seen by done. intros Hx.
      pose proof (dedup_loop_not_seen _ _ _ Hx) as Hfresh.
      destruct (IH _ Hx) as (i & Hi & Hfirst).
      exists (S i). split; [done|].
      intros [|k] z Hk Hz.
      * injection Hz as <-. congruence.
      * apply (Hfirst k); [lia|done].
    + rewrite dedup_loop_fresh by done.
      intros [->|Hx]%elem_of_cons.
      * exists 0%nat. split; [done|]. intros; lia.
      * pose proof (dedup_loop_not_seen _ _ _ Hx) as Hfresh.
        destruct (IH _ Hx) as (i & Hi & Hfirst).
        exists (S i). split; [done|].
        intros [|k] z Hk Hz.
        -- injection Hz as <-. set_solver.
        -- apply (Hfirst k); [lia|done].
Qed.

End Loops.

(** ** The extractor on the scenarios and on every input *)

Section Extractor.

Variable unicode_lower : str -> str.
Variable unicode_decimal : char -> bool.

Local Abbreviation lower := (lower unicode_lower).
Local Abbreviation extract := (extract_action_items unicode_lower unicode_decimal).
Local Abbreviation line_items := (line_items unicode_lower unicode_decimal).
Local Abbreviation fallback_items := (fallback_items unicode_lower).
Local Abbreviation extracted_items := (extracted_items unicode_lower unicode_decimal).

(** C1, as amended.  On the four keyword lines the extractor returns the
    four trimmed lines with their keywords: [todo:], [action:] and
    [next:], matched without regard to case, make a line an action line
    and are left in the item. *)
Theorem keyword_prefix_kept :
  extract keyword_notes =
  [py "TODO: Fix the bug"; py "action: Update auth";
   py "next: Test feature"; py "todo: Review PRs"].
Proof. vm_compute. reflexivity. Qed.

(** C2.  The items of the line tier are the action lines stripped in one
    fixed order: the bullet or numbering prefix through the pattern of
    the classification, then a leading ["[ ]"], then a leading
    ["[todo]"], with a trim after each.  So ["[ ] - task"] gives
    ["- task"]: the hyphen that the checkbox leaves in front is not
    removed. *)
Theorem stripping_order (text : str) :
  line_items text =
    map (strip_markup unicode_decimal)
      (List.filter (_is_action_line unicode_lower unicode_decimal)
         (List.filter nonblank (map Str.strip (Str.splitlines text))))
  ∧ extract (py "[ ] - task") = [py "- task"].
Proof.
  split; [|vm_compute; reflexivity].
  unfold line_items. by rewrite scan_lines_filter.
Qed.

(** C3.  The result holds no two items with the same lower-cased form;
    it is the list before the last loop with items left out; each item
    kept is the first with its lower-cased form; and two such first
    occurrences come in the result in the order they have in that
    list. *)
Theorem dedup_first_occurrences (text : str) :
  NoDup (lower <$> extract text)
  ∧ extract text `sublist_of` extracted_items text
  ∧ (∀ x, x ∈ extract text →
       ∃ i, first_occurrence lower (extracted_items text) i x)
  ∧ (∀ i j x y, (i < j)%nat →
       first_occurrence lower (extracted_items text) i x →
       first_occurrence lower (extracted_items text) j y →
       ∃ p q, (p < q)%nat ∧ extract text !! p = Some x
              ∧ extract text !! q = Some y).
Proof.
  unfold extract_action_items. repeat split.
  - apply dedup_loop_NoDup.
  - apply dedup_loop_sublist.
  - apply dedup_loop_first.
  - intros i j x y Hij Hx Hy.
    by apply (dedup_loop_order unicode_lower _ ∅ i j).
Qed.

(** C4, as amended.  The fallback runs exactly when the line tier found
    nothing in the whole text; it then appends the trimmed sentences that
    are not blank and look imperative, in their order, which may be none,
    and in every other case it appends nothing.  So the fallback adds
    items exactly when the line tier found nothing and some sentence that
    is not blank looks imperative, and the result is made of the items of
    one tier only. *)
Theorem fallback_only_without_line_items (text : str) :
  extracted_items text =
    line_items text ++ fallback_contribution unicode_lower unicode_decimal text
  ∧ fallback_contribution unicode_lower unicode_decimal text =
      match line_items text with
      | [] => imperative_sentences unicode_lower text
      | _ :: _ => []
      end
  ∧ (fallback_contribution unicode_lower unicode_decimal text ≠ [] ↔
     line_items text = [] ∧ imperative_sentences unicode_lower text ≠ [])
  ∧ extract text =
      dedup_loop unicode_lower
        match line_items text with
        | [] => imperative_sentences unicode_lower text
        | _ :: _ => line_items text
        end ∅ [].
Proof.
  assert (extracted_items text =
          match line_items text with
          | [] => imperative_sentences unicode_lower text
          | _ :: _ => line_items text
          end) as Hitems.
  { unfold extracted_items, imperative_sentences.
    destruct (line_items text) as [|item items]; cbn [Str.is_empty]; [|done].
    by rewrite scan_sentences_filter. }
  assert (fallback_contribution unicode_lower unicode_decimal text =
          match line_items text with
          | [] => imperative_sentences unicode_lower text
          | _ :: _ => []
          end) as Hadded.
  { unfold fallback_contribution. rewrite Hitems.
    destruct (line_items text) as [|item items]; [done|].
    by rewrite drop_all. }
  repeat split.
  - rewrite Hadded, Hitems.
    destruct (line_items text) as [|item items]; [done|by rewrite app_nil_r].
  - done.
  - rewrite Hadded in H. by destruct (line_items text).
  - rewrite Hadded in H. by destruct (line_items text).
  - intros [Hnil Hsome]. rewrite Hadded, Hnil. done.
  - unfold extract_action_items. fold (extracted_items text). by rewrite Hitems.
Qed.

(** C5.  Without any action line the imperative sentences are
    returned: the fallback keeps, in their order, the trimmed sentences
    that are not blank and whose first word of letters and apostrophes,
    lower-cased, is one of the twelve verbs. *)
Theorem imperative_fallback :
  extract imperative_notes =
    [py "Implement the new feature by next week.";
     py "Create a user dashboard."]
  ∧ line_items imperative_notes = []
  ∧ (∀ text,
       fallback_items text =
         List.filter (_looks_imperative unicode_lower)
           (List.filter nonblank
              (map Str.strip (Re.split SENTENCE_BOUNDARY (Str.strip text)))))
  ∧ (∀ sentence,
       _looks_imperative unicode_lower sentence = true ↔
       ∃ first words,
         Re.findall (Re.Plus isword) sentence = first :: words
         ∧ lower first ∈
             [py "add"; py "create"; py "implement"; py "fix"; py "update";
              py "write"; py "check"; py "verify"; py "refactor";
              py "document"; py "design"; py "investigate"]).
Proof.
  split; [vm_compute; reflexivity|].
  split; [vm_compute; reflexivity|].
  split.
  - intros text. unfold fallback_items.
    by rewrite scan_sentences_filter.
  - intros sentence. unfold _looks_imperative, imperative_starters.
    destruct (Re.findall (Re.Plus isword) sentence) as [|first words].
    + split; [done|]. by intros (? & ? & ? & _).
    + rewrite bool_decide_eq_true, elem_of_list_to_set. split.
      * intros Hin. by exists first, words.
      * intros (first' & words' & Heq & Hin). by injection Heq as -> ->.
Qed.

(** C6.  A text of white space only, the empty text included, gives the
    empty list. *)
Theorem whitespace_only_empty (text : str) :
  Forall (λ c, Str.isspace c = true) text → extract text = [].
Proof.
  intros Hws.
  unfold extract_action_items, extracted_items, line_items.
  rewrite scan_lines_blank by by apply splitlines_Forall.
  cbn [Str.is_empty]. by rewrite (strip_whitespace _ Hws).
Qed.

(** C9.  The marker ["[TODO]"] makes its line an action line, as the
    lower-cased line holds ["[todo]"], and stays in the item, as only the
    lower-case marker is removed; the same line with ["[todo]"] loses
    it. *)
Theorem uppercase_marker_kept :
  _is_action_line unicode_lower unicode_decimal (py "[TODO] Fix the login bug") = true
  ∧ extract (py "[TODO] Fix the login bug") = [py "[TODO] Fix the login bug"]
  ∧ extract (py "[todo] Fix the login bug") = [py "Fix the login bug"].
Proof. repeat split; vm_compute; reflexivity. Qed.

(** C10.  The line ["- [ ]"] is an action line whose item, once the
    bullet and the checkbox are removed, is the empty string, and the
    result is the list of that one empty string. *)
Theorem empty_item_returned :
  _is_action_line unicode_lower unicode_decimal (py "- [ ]") = true
  ∧ strip_markup unicode_decimal (py "- [ ]") = []
  ∧ extract (py "- [ ]") = [[]].
Proof. repeat split; vm_compute; reflexivity. Qed.

End Extractor.

(** C1, as stated: with no Unicode tables does the extractor return the
    four keyword lines without their keywords. *)
Lemma keyword_prefix_stripped_fails :
  ¬ ∃ unicode_lower unicode_decimal,
      extract_action_items unicode_lower unicode_decimal keyword_notes =
      [py "Fix the bug"; py "Update auth"; py "Test feature"; py "Review PRs"].
Proof.
  intros (unicode_lower & unicode_decimal & H).
  vm_compute in H. discriminate H.
Qed.

(** C4, as stated: a narrative text without action lines and without
    imperative sentences.  The line tier finds nothing in it and the
    fallback adds nothing either, whatever the Unicode tables, so that
    "the fallback adds items if and only if the line tier found nothing"
    fails there. *)
Lemma fallback_adds_nothing_to_narrative :
  ¬ ∃ unicode_lower unicode_decimal,
      fallback_contribution unicode_lower unicode_decimal narrative_notes ≠ []
      ↔ line_items unicode_lower unicode_decimal narrative_notes = [].
Proof.
  intros (unicode_lower & unicode_decimal & [_ H]).
  vm_compute in H. by apply H.
Qed.

(** ** Instances of the theorems with a premise *)

Lemma whitespace_only_empty_witness :
  Forall (λ c, Str.isspace c = true) blank_notes
  ∧ extract_action_items ascii_lower_table ascii_decimal_table blank_notes = [].
Proof.
  assert (Forall (λ c, Str.isspace c = true) blank_notes) as Hws
    by (repeat constructor).
  split; [exact Hws|].
  exact (whitespace_only_empty ascii_lower_table ascii_decimal_table
           blank_notes Hws).
Defined.

Lemma dedup_first_occurrences_witness :
  ∃ p q, (p < q)%nat
    ∧ extract_action_items ascii_lower_table ascii_decimal_table
        repeated_notes !! p = Some (py "Set up database")
    ∧ extract_action_items ascii_lower_table ascii_decimal_table
        repeated_notes !! q = Some (py "Implement API").
Proof.
  destruct (dedup_first_occurrences ascii_lower_table ascii_decimal_table
              repeated_notes) as (_ & _ & _ & Horder).
  apply (Horder 0%nat 2%nat); [lia| |].
  - split; [reflexivity|]. intros j y Hj. lia.
  - split; [reflexivity|].
    intros [|[|j]] y Hj Hy; [| |lia];
      vm_compute in Hy; injection Hy as <-; vm_compute; discriminate.
Defined.

(** ** The store *)

Section Store.

Local Open Scope Z_scope.

(** With an id that the table does not hold, and no error of sqlite,
    the exception that leaves [mark_action_item_done] is the
    [DatabaseError] that [get_connection] raises in place of the
    [ActionItemNotFoundError] of the body; the store is as before. *)
Lemma mark_action_item_done_absent (db : Db.database) (id : Z) (done : bool) :
  Db.action_items db !! id = None →
  Db.mark_action_item_done None db id done =
    (Db.Raise
       (Db.DatabaseError
          ("Unexpected database error: "
           +:+ Db.exn_str (Db.ActionItemNotFoundError id))), db).
Proof.
  intros Hid.
  unfold Db.mark_action_item_done, Db.get_connection, Db.execute_update_done.
  by rewrite Hid.
Qed.

(** With an id that the table holds, and no error of sqlite, the row
    gets the flag, as 1 or 0, and nothing is raised. *)
Lemma mark_action_item_done_present (db : Db.database) (id : Z)
    (done : bool) (row : Db.action_item_row) :
  Db.action_items db !! id = Some row →
  Db.mark_action_item_done None db id done =
    (Db.Return tt,
     {| Db.notes := Db.notes db;
        Db.action_items :=
          <[id := {| Db.note_id := Db.note_id row; Db.text := Db.text row;
                     Db.done := if done then 1 else 0;
                     Db.created_at := Db.created_at row |}]>
            (Db.action_items db) |}).
Proof.
  intros Hid.
  unfold Db.mark_action_item_done, Db.get_connection, Db.execute_update_done.
  by rewrite Hid.
Qed.

(** The flag that [mark_action_item_done] has set is the one that
    [get_action_item] reads back. *)
Lemma get_action_item_after_mark_done (db : Db.database) (id : Z)
    (done : bool) (row : Db.action_item_row) :
  Db.action_items db !! id = Some row →
  Db.done <$>
    (match (Db.get_action_item (Db.mark_action_item_done None db id done).2 id).1
     with
     | Db.Return found => found
     | Db.Raise _ => None
     end) = Some (if done then 1 else 0).
Proof.
  intros Hid. rewrite (mark_action_item_done_present _ _ _ _ Hid).
  unfold Db.get_action_item, Db.get_connection. cbn.
  by rewrite lookup_insert_eq.
Qed.

(** Whatever the store, the id and the errors of sqlite, no
    [ActionItemNotFoundError] leaves [mark_action_item_done]. *)
Lemma mark_action_item_done_never_not_found (fault : option string)
    (db : Db.database) (id : Z) (done : bool) (e : Db.exn) :
  (Db.mark_action_item_done fault db id done).1 = Db.Raise e →
  Db.isinstance e Db.ActionItemNotFoundError_ = false.
Proof.
  unfold Db.mark_action_item_done, Db.get_connection, Db.execute_update_done.
  destruct fault as [msg|]; [|destruct (Db.action_items db !! id)];
    cbn; intros He; by inversion He.
Qed.

(** C7.  On the store whose only action item has id 1, marking the item
    of id 2 as done raises a [DatabaseError] that is no
    [ActionItemNotFoundError], and leaves the store as it was. *)
Theorem mark_done_missing_id_not_reported_as_not_found :
  Db.mark_action_item_done None one_item_store 2 true =
    (Db.Raise
       (Db.DatabaseError
          "Unexpected database error: Action item with id 2 not found"),
     one_item_store)
  ∧ Db.isinstance
      (Db.DatabaseError
         "Unexpected database error: Action item with id 2 not found")
      Db.ActionItemNotFoundError_ = false.
Proof. split; [|reflexivity]. by rewrite mark_action_item_done_absent. Qed.

End Store.

(** * Further properties *)

(** ** Trimming *)

Lemma drop_while_idemp (p : char → bool) (s : str) :
  Str.drop_while p (Str.drop_while p s) = Str.drop_while p s.
Proof.
  induction s as [|c s IH]; [done|]. cbn [Str.drop_while].
  destruct (p c) eqn:Hc; [done|]. cbn [Str.drop_while]. by rewrite Hc.
Qed.

Lemma drop_while_head (p : char → bool) (s : str) (c : char) (t : str) :
  Str.drop_while p s = c :: t → p c = false.
Proof.
  induction s as [|c' s IH]; [done|]. cbn [Str.drop_while].
  destruct (p c') eqn:Hc; [done|]. by intros [= <- _].
Qed.

Lemma drop_while_keep (p : char → bool) (c : char) (s : str) :
  p c = false → Str.drop_while p (c :: s) = c :: s.
Proof. intros Hc. cbn [Str.drop_while]. by rewrite Hc. Qed.

Lemma drop_while_snoc (p : char → bool) (s : str) (c : char) :
  p c = false → Str.drop_while p (s ++ [c]) = Str.drop_while p s ++ [c].
Proof.
  intros Hc. induction s as [|c' s IH]; cbn [Str.drop_while app].
  - by rewrite Hc.
  - by destruct (p c').
Qed.

Lemma drop_while_nil_inv (p : char → bool) (s : str) :
  Str.drop_while p s = [] → Forall (λ c, p c = true) s.
Proof.
  induction s as [|c s IH]; [constructor|]. cbn [Str.drop_while].
  destruct (p c) eqn:Hc; [|done]. intros Hs. constructor; [done|by apply IH].
Qed.

(** Trimming on the right keeps a first character that is no white
    space. *)
Lemma rstrip_head (c : char) (s : str) :
  Str.isspace c = false → ∃ t, Str.rstrip (c :: s) = c :: t.
Proof.
  intros Hc. unfold Str.rstrip. cbn [rev].
  rewrite (drop_while_snoc _ _ _ Hc), rev_app_distr. cbn [rev app]. eauto.
Qed.

Lemma rstrip_idemp (s : str) : Str.rstrip (Str.rstrip s) = Str.rstrip s.
Proof.
  unfold Str.rstrip. by rewrite rev_involutive, drop_while_idemp.
Qed.

(** [s.strip().strip() == s.strip()] *)
Lemma strip_idemp (s : str) : Str.strip (Str.strip s) = Str.strip s.
Proof.
  unfold Str.strip at 2 3. unfold Str.lstrip.
  destruct (Str.drop_while Str.isspace s) as [|c t] eqn:Hs; [done|].
  pose proof (drop_while_head _ _ _ _ Hs) as Hc.
  destruct (rstrip_head c t Hc) as [u Hu].
  unfold Str.strip, Str.lstrip. rewrite Hu, (drop_while_keep _ _ _ Hc), <- Hu.
  apply rstrip_idemp.
Qed.

(** A string trims to nothing exactly when it is white space only. *)
Lemma strip_nil_iff (s : str) :
  Str.strip s = [] ↔ Forall (λ c, Str.isspace c = true) s.
Proof.
  split; [|apply strip_whitespace].
  unfold Str.strip, Str.lstrip. intros Hs.
  destruct (Str.drop_while Str.isspace s) as [|c t] eqn:Ht.
  - by apply drop_while_nil_inv.
  - pose proof (drop_while_head _ _ _ _ Ht) as Hc.
    destruct (rstrip_head c t Hc) as [u Hu]. congruence.
Qed.

(** ** Pieces of a text *)

Lemma substring_refl (s : str) : substring s s.
Proof. exists [], []. by rewrite app_nil_r. Qed.

Lemma substring_trans (x y z : str) :
  substring x y → substring y z → substring x z.
Proof.
  intros (a & b & ->) (a' & b' & ->). exists (a' ++ a), (b ++ b').
  by rewrite <- !app_assoc.
Qed.

Lemma substring_app_r (x a s : str) : substring x s → substring x (a ++ s).
Proof.
  intros (b & e & ->). exists (a ++ b), e. by rewrite <- app_assoc.
Qed.

Lemma substring_app_l (x s b : str) : substring x s → substring x (s ++ b).
Proof.
  intros (a & e & ->). exists a, (e ++ b). by rewrite <- !app_assoc.
Qed.

Lemma substring_prefix (x s : str) : substring x (x ++ s).
Proof. by exists [], s. Qed.

Lemma substring_drop (n : nat) (s : str) : substring (drop n s) s.
Proof.
  exists (take n s), []. by rewrite app_nil_r, take_drop.
Qed.

Lemma substring_rev_drop_while (p : char → bool) (s : str) :
  substring (rev (Str.drop_while p (rev s))) s.
Proof.
  assert (∀ t : str, ∃ a, t = a ++ Str.drop_while p t) as Hsuffix.
  { induction t as [|c t [a IH]]; [by exists []|]. cbn [Str.drop_while].
    destruct (p c); [|by exists []]. exists (c :: a). by rewrite IH at 1. }
  destruct (Hsuffix (rev s)) as [a Ha].
  exists [], (rev a). cbn [app].
  by rewrite <- rev_app_distr, <- Ha, rev_involutive.
Qed.

Lemma substring_drop_while (p : char → bool) (s : str) :
  substring (Str.drop_while p s) s.
Proof.
  induction s as [|c s IH]; [apply substring_refl|]. cbn [Str.drop_while].
  destruct (p c); [|apply substring_refl].
  by apply (substring_app_r _ [c]).
Qed.

Lemma substring_strip (s : str) : substring (Str.strip s) s.
Proof.
  unfold Str.strip, Str.rstrip, Str.lstrip.
  eapply substring_trans; [apply substring_rev_drop_while|].
  apply substring_drop_while.
Qed.

Lemma substring_removeprefix (s prefix : str) :
  substring (Str.removeprefix s prefix) s.
Proof.
  unfold Str.removeprefix.
  destruct (Str.startswith s prefix);
    [apply substring_drop|apply substring_refl].
Qed.

(** Past the start of the string an anchored pattern removes nothing
    more. *)
Lemma sub_empty_from_anchored (r : Re.regex) :
  anchored r →
  ∀ s c n, Re.sub_empty_from r (Some c) s n = drop n s.
Proof.
  intros Hr. induction s as [|c' s IH]; intros c n.
  - by destruct n.
  - cbn [Re.sub_empty_from]. destruct n as [|n]; [|apply IH].
    rewrite Hr, IH. done.
Qed.

(** [pattern.sub("", s)] with an anchored pattern removes the match at
    the start of the string, if there is one. *)
Lemma sub_empty_anchored (r : Re.regex) (s : str) :
  anchored r →
  Re.sub_empty r s =
    match Re.match_here r None s with
    | Some (S n) => drop (S n) s
    | _ => s
    end.
Proof.
  intros Hr. unfold Re.sub_empty. destruct s as [|c s].
  - cbn [Re.sub_empty_from]. by destruct (Re.match_here r None []) as [[|n]|].
  - cbn [Re.sub_empty_from].
    destruct (Re.match_here r None (c :: s)) as [[|n]|];
      by rewrite (sub_empty_from_anchored r Hr).
Qed.

Lemma BULLET_PREFIX_PATTERN_anchored (unicode_decimal : char → bool) :
  anchored (BULLET_PREFIX_PATTERN unicode_decimal).
Proof. by intros c s. Qed.

Lemma substring_strip_markup (unicode_decimal : char → bool) (line : str) :
  substring (strip_markup unicode_decimal line) line.
Proof.
  unfold strip_markup, strip_todo_marker, strip_checkbox, strip_bullet_prefix.
  repeat (eapply substring_trans;
          [first [apply substring_strip|apply substring_removeprefix]|]).
  rewrite (sub_empty_anchored _ _ (BULLET_PREFIX_PATTERN_anchored _)).
  destruct (Re.match_here _ None line) as [[|n]|];
    [apply substring_refl|apply substring_drop|apply substring_refl].
Qed.

(** Every line of [splitlines] is a piece of the text. *)
Lemma splitlines_from_substring (n : nat) :
  ∀ s cur line, (length s ≤ n)%nat →
    line ∈ Str.splitlines_from s cur → substring line (rev cur ++ s).
Proof.
  induction n as [|n IH]; intros [|c s] cur line Hn;
    cbn [Str.splitlines_from length] in *; try lia.
  - destruct (Str.is_empty cur); [by intros ?%elem_of_nil|].
    intros [->|?%elem_of_nil]%elem_of_cons; [|done].
    rewrite app_nil_r. apply substring_refl.
  - destruct (Str.is_empty cur); [by intros ?%elem_of_nil|].
    intros [->|?%elem_of_nil]%elem_of_cons; [|done].
    rewrite app_nil_r. apply substring_refl.
  - destruct (Str.islinebreak c).
    + intros [->|Hline]%elem_of_cons; [apply substring_prefix|].
      apply substring_app_r, (substring_app_r _ [c]).
      destruct s as [|c' s']; [apply (IH _ []); [simpl; lia|done]|].
      destruct ((c =? 13) && (c' =? 10)).
      * apply (substring_app_r _ [c']).
        apply (IH _ []); [simpl in *; lia|done].
      * apply (IH _ []); [simpl in *; lia|done].
    + intros Hline. apply IH in Hline; [|lia].
      cbn [rev] in Hline. by rewrite <- app_assoc in Hline.
Qed.

(** Every piece of [re.split] is a piece of the text. *)
Lemma split_from_substring (r : Re.regex) :
  ∀ s prev skip cur piece,
    piece ∈ Re.split_from r prev s skip cur →
    substring piece (rev cur ++ drop skip s).
Proof.
  induction s as [|c s IH]; intros prev skip cur piece;
    cbn [Re.split_from].
  - intros [->|?%elem_of_nil]%elem_of_cons; [|done].
    rewrite drop_nil, app_nil_r. apply substring_refl.
  - destruct skip as [|n].
    + rewrite drop_0.
      destruct (Re.match_here r prev (c :: s)) as [[|n]|].
      * intros Hp%IH. cbn [rev] in Hp.
        by rewrite drop_0, <- app_assoc in Hp.
      * intros [->|Hp%IH]%elem_of_cons; [apply substring_prefix|].
        apply substring_app_r, (substring_app_r _ [c]).
        eapply substring_trans; [exact Hp|]. apply substring_drop.
      * intros Hp%IH. cbn [rev] in Hp.
        by rewrite drop_0, <- app_assoc in Hp.
    + intros Hp%IH. by rewrite skipn_cons.
Qed.

(** ** What the extractor returns *)

Lemma elem_of_List_filter (f : str → bool) (l : list str) (x : str) :
  x ∈ List.filter f l ↔ x ∈ l ∧ f x = true.
Proof. rewrite !list_elem_of_In. apply filter_In. Qed.

Section Items.

Variable unicode_lower : str -> str.
Variable unicode_decimal : char -> bool.

(** The list handed to the last loop, by cases on the line tier. *)
Lemma extracted_items_cases (text : str) :
  extracted_items unicode_lower unicode_decimal text =
    match line_items unicode_lower unicode_decimal text with
    | [] => fallback_items unicode_lower text
    | _ :: _ => line_items unicode_lower unicode_decimal text
    end.
Proof.
  unfold extracted_items, fallback_items.
  by destruct (line_items unicode_lower unicode_decimal text).
Qed.

(** What holds of every stripped action line and of every trimmed
    sentence holds of every item before the last loop. *)
Lemma extracted_items_Forall (P : str → Prop) (text : str) :
  (∀ line, line ∈ Str.splitlines text →
     P (strip_markup unicode_decimal (Str.strip line))) →
  (∀ sentence,
     sentence ∈ Re.split SENTENCE_BOUNDARY (Str.strip text) →
     Str.strip sentence ≠ [] → P (Str.strip sentence)) →
  Forall P (extracted_items unicode_lower unicode_decimal text).
Proof.
  intros Hline Hsentence. rewrite extracted_items_cases.
  assert (Forall P (line_items unicode_lower unicode_decimal text)) as Hl.
  { unfold line_items. rewrite scan_lines_filter. cbn [app].
    apply Forall_forall. intros x (l & -> & Hl)%list_elem_of_fmap.
    apply elem_of_List_filter in Hl as [Hl _].
    apply elem_of_List_filter in Hl as [Hl _].
    apply list_elem_of_fmap in Hl as (raw & -> & Hraw). by apply Hline. }
  destruct (line_items unicode_lower unicode_decimal text); [|done].
  unfold fallback_items. rewrite scan_sentences_filter. cbn [app].
  apply Forall_forall. intros x Hx.
  apply elem_of_List_filter in Hx as [Hx _].
  apply elem_of_List_filter in Hx as [Hx Hnb].
  apply list_elem_of_fmap in Hx as (piece & -> & Hpiece).
  apply Hsentence; [done|].
  unfold nonblank in Hnb. by destruct (Str.strip piece).
Qed.

Lemma extract_action_items_Forall (P : str → Prop) (text : str) :
  Forall P (extracted_items unicode_lower unicode_decimal text) →
  Forall P (extract_action_items unicode_lower unicode_decimal text).
Proof.
  unfold extract_action_items. rewrite !Forall_forall. intros HP x Hx.
  apply HP. eapply elem_of_sublist; [exact Hx|apply dedup_loop_sublist].
Qed.

(** X1.  No item that the extractor returns has white space at either
    end. *)
Theorem extract_items_trimmed (text : str) :
  Forall (λ item, Str.strip item = item)
    (extract_action_items unicode_lower unicode_decimal text).
Proof.
  apply extract_action_items_Forall, extracted_items_Forall.
  - intros line _. unfold strip_markup, strip_todo_marker. apply strip_idemp.
  - intros sentence _ _. apply strip_idemp.
Qed.

(** X2.  Every item that the extractor returns is a run of consecutive
    characters of the text. *)
Theorem extract_items_substrings (text : str) :
  Forall (λ item, substring item text)
    (extract_action_items unicode_lower unicode_decimal text).
Proof.
  apply extract_action_items_Forall, extracted_items_Forall.
  - intros line Hline.
    eapply substring_trans; [apply substring_strip_markup|].
    eapply substring_trans; [apply substring_strip|].
    by apply (splitlines_from_substring (length text) text []).
  - intros sentence Hs _.
    eapply substring_trans; [apply substring_strip|].
    eapply substring_trans; [|apply (substring_strip text)].
    apply (split_from_substring _ _ _ _ _ _) in Hs.
    by rewrite drop_0 in Hs.
Qed.

(** X3.  The first item returned is the first item found, and nothing is
    returned only when nothing was found: the last loop never drops the
    head of its list. *)
Theorem extract_head (text : str) :
  head (extract_action_items unicode_lower unicode_decimal text) =
  head (extracted_items unicode_lower unicode_decimal text).
Proof.
  unfold extract_action_items.
  destruct (extracted_items unicode_lower unicode_decimal text) as [|x l];
    [done|].
  by rewrite dedup_loop_fresh by set_solver.
Qed.

(** X4.  When no line is an action line, no returned item is the empty
    string. *)
Theorem fallback_items_nonempty (text : str) :
  line_items unicode_lower unicode_decimal text = [] →
  Forall (λ item, item ≠ [])
    (extract_action_items unicode_lower unicode_decimal text).
Proof.
  intros Hnone. apply extract_action_items_Forall.
  rewrite extracted_items_cases, Hnone.
  unfold fallback_items. rewrite scan_sentences_filter. cbn [app].
  apply Forall_forall. intros x Hx.
  apply elem_of_List_filter in Hx as [Hx _].
  apply elem_of_List_filter in Hx as [_ Hnb].
  unfold nonblank in Hnb. by destruct x.
Qed.

End Items.

Lemma fallback_items_nonempty_witness :
  line_items ascii_lower_table ascii_decimal_table imperative_notes = []
  ∧ Forall (λ item, item ≠ [])
      (extract_action_items ascii_lower_table ascii_decimal_table
         imperative_notes).
Proof.
  assert (line_items ascii_lower_table ascii_decimal_table imperative_notes
          = []) as Hnone by (vm_compute; reflexivity).
  split; [exact Hnone|].
  exact (fallback_items_nonempty ascii_lower_table ascii_decimal_table
           imperative_notes Hnone).
Defined.

(** ** Greedy repetition *)

Lemma star_k_stop (p : char → bool) (prev : option char) (s : str)
    (k : option char → str → option nat) :
  stops p s → Re.star_k p prev s k = k prev s.
Proof.
  destruct s as [|c s]; [done|]. cbn [stops Re.star_k]. by intros ->.
Qed.

(** A repetition followed by something that matches takes the whole run
    of its class. *)
Lemma star_k_run (p : char → bool) (run rest : str)
    (k : option char → str → option nat) (m : nat) :
  Forall (λ c, p c = true) run → stops p rest →
  ∀ prev, k (last_read prev run) rest = Some m →
    Re.star_k p prev (run ++ rest) k = Some (length run + m)%nat.
Proof.
  intros Hrun Hrest.
  induction Hrun as [|c run Hc _ IH]; intros prev Hk.
  - cbn [app length]. by rewrite star_k_stop.
  - cbn [app Re.star_k length]. rewrite Hc. by rewrite (IH (Some c)).
Qed.

(** A repetition matches whenever what follows matches everywhere. *)
Lemma star_k_total (p : char → bool) (k : option char → str → option nat) :
  (∀ prev s, is_Some (k prev s)) →
  ∀ s prev, is_Some (Re.star_k p prev s k).
Proof.
  intros Hk. induction s as [|c s IH]; intros prev; cbn [Re.star_k]; [done|].
  destruct (p c); [|done].
  by destruct (IH (Some c)) as [n ->].
Qed.

(** ** Lines with a list marker *)

Section Markers.

Variable unicode_lower : str -> str.
Variable unicode_decimal : char -> bool.

Local Abbreviation BULLET := (BULLET_PREFIX_PATTERN unicode_decimal).

(** White space, at least one character, matched from [s] on. *)
Lemma plus_isspace_match (prev : option char) (g : char) (gap tail : str) :
  Str.isspace g = true → Forall (λ c, Str.isspace c = true) gap →
  ∃ n, Re.match_k (Re.Plus Str.isspace) prev (g :: gap ++ tail)
         (λ _ _, Some 0%nat) = Some (S n)
       ∧ (stops Str.isspace tail → n = length gap).
Proof.
  intros Hg Hgap. unfold Re.Plus. cbn [Re.match_k]. rewrite Hg.
  destruct (star_k_total Str.isspace (λ _ _, Some 0%nat)
              (λ _ _, ltac:(by eexists)) (gap ++ tail) (Some g)) as [n Hn].
  exists n. rewrite Hn. split; [done|]. intros Hstop.
  rewrite (star_k_run _ gap tail _ 0%nat Hgap Hstop) in Hn by done.
  injection Hn as <-. lia.
Qed.

Lemma digit_classes (c : char) :
  0x30 ≤ c ≤ 0x39 →
  Str.isspace c = false ∧ isbullet c = false
  ∧ isdecimal unicode_decimal c = true ∧ Str.ascii_lower c = c
  ∧ (c <? 128) = true.
Proof.
  intros Hc.
  assert (c = 48 ∨ c = 49 ∨ c = 50 ∨ c = 51 ∨ c = 52 ∨ c = 53 ∨ c = 54
          ∨ c = 55 ∨ c = 56 ∨ c = 57) as Hcases by lia.
  repeat destruct Hcases as [->|Hcases]; try subst c; by vm_compute.
Qed.

(** The pattern matches a marker and the white space after it, and
    nothing more when no white space follows. *)
Lemma bullet_match (marker gap tail : str) :
  ascii_marker marker → gap ≠ [] →
  Forall (λ c, Str.isspace c = true) gap →
  ∃ n, Re.match_here BULLET None (marker ++ gap ++ tail) = Some (S n)
       ∧ (stops Str.isspace tail → S n = (length marker + length gap)%nat).
Proof.
  intros Hmarker Hgap Hws. destruct gap as [|g gap]; [done|].
  inversion Hws as [|? ? Hg Hws']; subst.
  destruct Hmarker as [| |digits Hdigits Hrange].
  - destruct (plus_isspace_match (Some 45) g gap tail Hg Hws')
      as (n & Hn & Hlen).
    exists (S n). unfold Re.match_here, BULLET_PREFIX_PATTERN.
    change (py "-") with [45]. cbn [app Re.match_k Re.star_k].
    change (Str.isspace 45) with false. change (isbullet 45) with true.
    cbn iota. rewrite Hn. split; [done|]. intros Hstop.
    rewrite (Hlen Hstop). cbn [length]. lia.
  - destruct (plus_isspace_match (Some 42) g gap tail Hg Hws')
      as (n & Hn & Hlen).
    exists (S n). unfold Re.match_here, BULLET_PREFIX_PATTERN.
    change (py "*") with [42]. cbn [app Re.match_k Re.star_k].
    change (Str.isspace 42) with false. change (isbullet 42) with true.
    cbn iota. rewrite Hn. split; [done|]. intros Hstop.
    rewrite (Hlen Hstop). cbn [length]. lia.
  - destruct digits as [|d digits]; [done|].
    inversion Hrange as [|? ? Hd Hrange']; subst.
    destruct (digit_classes d Hd) as (Hd1 & Hd2 & Hd3 & _).
    destruct (plus_isspace_match (Some 46) g gap tail Hg Hws')
      as (n & Hn & Hlen).
    exists (length digits + S (S n))%nat.
    unfold Re.match_here, BULLET_PREFIX_PATTERN, Re.Plus.
    change (py ".") with [46].
    cbn [app Re.match_k Re.star_k]. rewrite Hd1, Hd2, Hd3.
    cbn [fmap option_fmap option_map].
    rewrite <- app_assoc.
    rewrite (star_k_run _ digits _ _ (S (S n))).
    + split; [done|]. intros Hstop. rewrite (Hlen Hstop).
      cbn [length app]. rewrite ?length_app. cbn [length]. lia.
    + eapply Forall_impl; [exact Hrange'|].
      intros c Hc. by destruct (digit_classes c Hc) as (_ & _ & ? & _).
    + by vm_compute.
    + cbn [app Re.match_k]. change (46 =? 46) with true. cbv iota.
      unfold Re.Plus in Hn. cbn [Re.match_k] in Hn. by rewrite Hn.
Qed.

End Markers.

Lemma drop_while_length (p : char → bool) (s : str) :
  (length (Str.drop_while p s) ≤ length s)%nat.
Proof.
  induction s as [|c s IH]; [done|]. cbn [Str.drop_while].
  destruct (p c); cbn [length]; lia.
Qed.

(** A trimmed string does not start with white space. *)
Lemma strip_fixed_stops (s : str) : Str.strip s = s → stops Str.isspace s.
Proof.
  destruct s as [|c s]; [done|]. intros Hs. cbn [stops].
  destruct (Str.isspace c) eqn:Hc; [|done].
  apply (f_equal length) in Hs. revert Hs.
  unfold Str.strip, Str.rstrip, Str.lstrip. cbn [Str.drop_while].
  rewrite Hc, length_rev. cbn [length].
  pose proof (drop_while_length Str.isspace
                (rev (Str.drop_while Str.isspace s))) as H1.
  pose proof (drop_while_length Str.isspace s) as H2.
  rewrite length_rev in H1. lia.
Qed.

Lemma isspace_ascii_lower (c : char) :
  Str.isspace c = true → Str.ascii_lower c = c.
Proof.
  unfold Str.ascii_lower, Str.isspace. intros Hc.
  destruct ((65 <=? c) && (c <=? 90)) eqn:Hupper; [|done].
  rewrite andb_true_iff, !N.leb_le in Hupper.
  rewrite !orb_true_iff, !andb_true_iff, !N.leb_le, !N.eqb_eq in Hc. lia.
Qed.

Lemma ascii_marker_classes (marker : str) :
  ascii_marker marker →
  marker ≠ [] ∧ stops Str.isspace marker
  ∧ Str.isascii marker = true ∧ map Str.ascii_lower marker = marker.
Proof.
  intros Hmarker. destruct Hmarker as [| |digits Hne Hdigits].
  { by vm_compute. }
  { by vm_compute. }
  destruct digits as [|d digits]; [done|].
  split; [done|]. split.
  { inversion Hdigits as [|? ? Hd _]; subst.
    by destruct (digit_classes (λ _, false) d Hd) as (? & _). }
  unfold Str.isascii. rewrite forallb_app, map_app. split.
  - rewrite andb_true_iff. split; [|by vm_compute].
    apply forallb_forall. intros c Hc.
    rewrite Forall_forall in Hdigits.
    apply list_elem_of_In, Hdigits in Hc.
    by destruct (digit_classes (λ _, false) c Hc) as (_ & _ & _ & _ & ?).
  - f_equal. rewrite <- (map_id (d :: digits)) at 2.
    apply map_ext_in. intros c Hc.
    rewrite Forall_forall in Hdigits.
    apply list_elem_of_In, Hdigits in Hc.
    by destruct (digit_classes (λ _, false) c Hc) as (_ & _ & _ & ? & _).
Qed.

Section Lines.

Variable unicode_lower : str -> str.
Variable unicode_decimal : char -> bool.

(** X5.  A line that is, once trimmed, an ASCII list marker, white space
    and a trimmed body of ASCII that starts with no checkbox token
    contributes exactly its body, wherever it stands among the lines. *)
Theorem marked_line_item (raw marker gap body : str)
    (lines extracted : list str) :
  Str.strip raw = marker ++ gap ++ body →
  ascii_marker marker →
  gap ≠ [] → Forall (λ c, Str.isspace c = true) gap →
  body ≠ [] → Str.strip body = body → Str.isascii (gap ++ body) = true →
  Str.startswith body (py "[ ]") = false →
  Str.startswith body (py "[todo]") = false →
  scan_lines unicode_lower unicode_decimal (raw :: lines) extracted =
  scan_lines unicode_lower unicode_decimal lines (extracted ++ [body]).
Proof.
  intros Hraw Hmarker Hgap Hws Hbody Htrim Hascii Hbox Htodo.
  destruct (ascii_marker_classes marker Hmarker)
    as (Hne & _ & Hmascii & Hmlower).
  assert (_is_action_line unicode_lower unicode_decimal (Str.strip raw)
          = true) as Haction.
  { unfold _is_action_line. rewrite strip_idemp, Hraw.
    assert (lower unicode_lower (marker ++ gap ++ body) =
            marker ++ gap ++ map Str.ascii_lower body) as ->.
    { unfold lower, Str.isascii. rewrite forallb_app.
      fold (Str.isascii marker). fold (Str.isascii (gap ++ body)).
      rewrite Hmascii, Hascii. cbn [andb].
      rewrite !map_app, Hmlower. do 2 f_equal.
      rewrite <- (map_id gap) at 2. apply map_ext_in. intros c Hc.
      rewrite Forall_forall in Hws.
      by apply isspace_ascii_lower, Hws, list_elem_of_In. }
    destruct marker as [|m marker]; [done|]. cbn [app Str.is_empty].
    destruct (bullet_match unicode_decimal (m :: marker) gap
                (map Str.ascii_lower body) Hmarker Hgap Hws) as (n & Hn & _).
    unfold Re.matches. cbn [app] in Hn.
    by rewrite Hn, bool_decide_eq_true_2. }
  cbn [scan_lines]. rewrite Haction, Hraw.
  destruct marker as [|m marker]; [done|]. cbn [app Str.is_empty].
  change (m :: marker ++ gap ++ body) with ((m :: marker) ++ gap ++ body).
  rewrite (sub_empty_anchored _ _ (BULLET_PREFIX_PATTERN_anchored _)).
  destruct (bullet_match unicode_decimal (m :: marker) gap body
              Hmarker Hgap Hws) as (n & -> & Hlen).
  rewrite (Hlen (strip_fixed_stops body Htrim)).
  rewrite app_assoc, <- length_app, drop_app_length.
  unfold Str.removeprefix. by rewrite Htrim, Hbox, Htrim, Htodo, Htrim.
Qed.

End Lines.

Section Keywords.

Variable unicode_lower : str -> str.
Variable unicode_decimal : char -> bool.

(** A line of ASCII whose lower-cased form starts with a keyword starts
    with a letter of one of them. *)
Lemma keyword_first_letter (line : str) :
  existsb (λ prefix, Str.startswith (map Str.ascii_lower line) prefix)
    KEYWORD_PREFIXES = true →
  ∃ c rest, line = c :: rest
    ∧ (c = 116 ∨ c = 84 ∨ c = 97 ∨ c = 65 ∨ c = 110 ∨ c = 78).
Proof.
  destruct line as [|c rest]; [by vm_compute|]. intros Hkw.
  exists c, rest. split; [done|].
  unfold KEYWORD_PREFIXES in Hkw. cbn [existsb] in Hkw.
  change (py "todo:") with (116 :: py "odo:") in Hkw.
  change (py "action:") with (97 :: py "ction:") in Hkw.
  change (py "next:") with (110 :: py "ext:") in Hkw.
  cbn [map Str.startswith] in Hkw.
  rewrite !orb_true_iff, !andb_true_iff, !N.eqb_eq in Hkw.
  unfold Str.ascii_lower in Hkw.
  destruct ((65 <=? c) && (c <=? 90)); lia.
Qed.

(** X6.  A line that is, once trimmed, a line of ASCII that starts with
    [todo:], [action:] or [next:] in any case contributes the whole trimmed
    line, keyword included, wherever it stands among the lines. *)
Theorem keyword_line_item (raw : str) (lines extracted : list str) :
  Str.isascii (Str.strip raw) = true →
  existsb (λ prefix, Str.startswith (map Str.ascii_lower (Str.strip raw)) prefix)
    KEYWORD_PREFIXES = true →
  scan_lines unicode_lower unicode_decimal (raw :: lines) extracted =
  scan_lines unicode_lower unicode_decimal lines (extracted ++ [Str.strip raw]).
Proof.
  intros Hascii Hkw.
  destruct (keyword_first_letter _ Hkw) as (c & rest & Hline & Hc).
  assert (_is_action_line unicode_lower unicode_decimal (Str.strip raw)
          = true) as Haction.
  { unfold _is_action_line, lower. rewrite strip_idemp, Hascii, Hkw.
    rewrite Hline. cbn [map Str.is_empty].
    by destruct (Re.matches _ _). }
  cbn [scan_lines]. rewrite Haction.
  rewrite (sub_empty_anchored _ _ (BULLET_PREFIX_PATTERN_anchored _)).
  assert (Re.match_here (BULLET_PREFIX_PATTERN unicode_decimal) None
            (Str.strip raw) = None) as ->.
  { rewrite Hline. unfold Re.match_here, BULLET_PREFIX_PATTERN, Re.Plus.
    cbn [Re.match_k Re.star_k].
    by repeat destruct Hc as [->|Hc]; try subst c. }
  rewrite strip_idemp. unfold Str.removeprefix.
  assert (Str.startswith (Str.strip raw) (py "[ ]") = false) as ->.
  { rewrite Hline. by repeat destruct Hc as [->|Hc]; try subst c. }
  rewrite strip_idemp.
  assert (Str.startswith (Str.strip raw) (py "[todo]") = false) as ->.
  { rewrite Hline. by repeat destruct Hc as [->|Hc]; try subst c. }
  rewrite strip_idemp.
  rewrite Hline at 1. done.
Qed.

End Keywords.

Lemma marked_line_item_witness :
  scan_lines ascii_lower_table ascii_decimal_table
    [py "  12.  Write unit tests "; py "Regular narrative text."] [] =
  scan_lines ascii_lower_table ascii_decimal_table
    [py "Regular narrative text."] ([] ++ [py "Write unit tests"]).
Proof.
  apply (marked_line_item ascii_lower_table ascii_decimal_table
           (py "  12.  Write unit tests ") (py "12" ++ py ".") (py "  ")
           (py "Write unit tests"));
    try (vm_compute; reflexivity); try discriminate.
  - apply marker_number; [discriminate|].
    repeat constructor; vm_compute; discriminate.
  - repeat constructor.
Defined.

Lemma keyword_line_item_witness :
  scan_lines ascii_lower_table ascii_decimal_table
    [py " TODO: Fix the bug"; py "- Review"] [] =
  scan_lines ascii_lower_table ascii_decimal_table
    [py "- Review"] ([] ++ [Str.strip (py " TODO: Fix the bug")]).
Proof.
  apply (keyword_line_item ascii_lower_table ascii_decimal_table
           (py " TODO: Fix the bug")); vm_compute; reflexivity.
Defined.

(** ** The requests *)

(** X7.  The text of an extraction request and the content of a new note
    are refused exactly when they are white space only, the empty string
    included. *)
Theorem validated_rejects_blank (v : str) :
  (Schemas.validate_text v = None ↔ Forall (λ c, Str.isspace c = true) v)
  ∧ (Schemas.validate_content v = None ↔
     Forall (λ c, Str.isspace c = true) v).
Proof.
  assert (Schemas.validated v = None ↔ Forall (λ c, Str.isspace c = true) v)
    as Hv; [|done].
  unfold Schemas.validated. rewrite <- strip_nil_iff.
  destruct v as [|c v]; [done|]. cbn [length Nat.ltb Nat.leb].
  by destruct (Str.strip (c :: v)).
Qed.

(** X8.  A text or content that is accepted is held trimmed and not
    empty, and is accepted as it is when sent again. *)
Theorem validated_accepts (v s : str) :
  Schemas.validate_text v = Some s →
  s = Str.strip v ∧ s ≠ [] ∧ Schemas.validate_text s = Some s
  ∧ Schemas.validate_content v = Some s.
Proof.
  unfold Schemas.validate_text, Schemas.validate_content, Schemas.validated.
  destruct (length v <? 1)%nat; [done|].
  destruct (Str.is_empty (Str.strip v)) eqn:Hempty; [done|]. intros [= <-].
  rewrite strip_idemp, Hempty.
  by destruct (Str.strip v).
Qed.

Lemma validated_accepts_witness :
  Str.strip (py "  - Review PRs ") = Str.strip (py "  - Review PRs ")
  ∧ Str.strip (py "  - Review PRs ") ≠ []
  ∧ Schemas.validate_text (Str.strip (py "  - Review PRs ")) =
      Some (Str.strip (py "  - Review PRs "))
  ∧ Schemas.validate_content (py "  - Review PRs ") =
      Some (Str.strip (py "  - Review PRs ")).
Proof.
  apply (validated_accepts (py "  - Review PRs ")). vm_compute. reflexivity.
Defined.

(** ** The extraction through the language model *)

(** X9.  Whatever the language model replies, no item that
    [extract_action_items_llm] returns is empty or has white space at
    either end, and nothing is returned when the call or the reading of
    the reply fails. *)
Theorem llm_items_trimmed_nonempty (reply : llm_reply) :
  Forall (λ item, item ≠ [] ∧ Str.strip item = item)
    (extract_action_items_llm reply)
  ∧ (reply ∈ [ChatRaises; NoContent; InvalidContent] →
     extract_action_items_llm reply = []).
Proof.
  split.
  - destruct reply as [| | |items]; cbn [extract_action_items_llm];
      [constructor..|].
    apply Forall_forall. intros x (item & -> & Hitem)%list_elem_of_fmap.
    rewrite list_elem_of_In in Hitem. apply filter_In in Hitem as [_ Hitem].
    rewrite andb_true_iff in Hitem. destruct Hitem as [_ Hitem].
    split; [by destruct (Str.strip item)|apply strip_idemp].
  - intros Hreply. by repeat apply elem_of_cons in Hreply as [->|Hreply];
      [..|by apply elem_of_nil in Hreply].
Qed.

(** ** The store: connections, insertions and reads *)

Section Inserts.

Local Open Scope Z_scope.

(** X10.  An exception that leaves a [with get_connection()] block is a
    plain [DatabaseError], whatever the block raised, and the store is
    then as it was before the block. *)
Theorem get_connection_failure {A} (db db' : Db.database)
    (body : Db.database → Db.result A * Db.database) (e : Db.exn) :
  Db.get_connection db body = (Db.Raise e, db') →
  db' = db ∧ ∃ msg, e = Db.DatabaseError msg.
Proof.
  unfold Db.get_connection. destruct (body db) as [[a|e0] view]; [done|].
  destruct (Db.isinstance e0 Db.sqlite3_Error); [intros [= <- <-]; eauto|].
  cbn [Db.isinstance]. intros [= <- <-]; eauto.
Qed.

Lemma foldr_max_bounds (keys : list Z) :
  0 ≤ foldr Z.max 0 keys
  ∧ (∀ k, k ∈ keys → k ≤ foldr Z.max 0 keys)
  ∧ (foldr Z.max 0 keys = 0 ∨ foldr Z.max 0 keys ∈ keys).
Proof.
  induction keys as [|k keys (IH0 & IHle & IHin)]; cbn [foldr].
  - split; [done|]. split; [by intros k ?%elem_of_nil|by left].
  - split; [lia|]. split.
    + intros k' [->|Hk']%elem_of_cons; [lia|]. specialize (IHle k' Hk'). lia.
    + destruct (Z.max_spec k (foldr Z.max 0 keys)) as [[_ ->]|[_ ->]].
      * destruct IHin as [->|Hin]; [by left|]. right. by apply elem_of_cons; right.
      * right. by apply elem_of_cons; left.
Qed.

Lemma max_rowid_nonneg {A} (table : gmap Z A) : 0 ≤ Db.max_rowid table.
Proof. by destruct (foldr_max_bounds (map_to_list table).*1). Qed.

Lemma max_rowid_ge {A} (table : gmap Z A) (k : Z) (v : A) :
  table !! k = Some v → k ≤ Db.max_rowid table.
Proof.
  intros Hk.
  destruct (foldr_max_bounds (map_to_list table).*1) as (_ & Hle & _).
  apply Hle, list_elem_of_fmap. exists (k, v). split; [done|].
  by apply elem_of_map_to_list.
Qed.

Lemma max_rowid_held {A} (table : gmap Z A) :
  Db.max_rowid table = 0 ∨ is_Some (table !! Db.max_rowid table).
Proof.
  destruct (foldr_max_bounds (map_to_list table).*1) as (_ & _ & [H0|Hin]);
    [by left|right].
  apply list_elem_of_fmap in Hin as ([k v] & Hk & Hkv).
  apply elem_of_map_to_list in Hkv. unfold Db.max_rowid. rewrite Hk. eauto.
Qed.

(** The largest id once a row is inserted above all the others. *)
Lemma max_rowid_insert {A} (table : gmap Z A) (k : Z) (v : A) :
  Db.max_rowid table < k → Db.max_rowid (<[k := v]> table) = k.
Proof.
  intros Hk. pose proof (max_rowid_nonneg table) as H0.
  assert (k ≤ Db.max_rowid (<[k := v]> table)) as Hle
    by (apply (max_rowid_ge _ k v); by rewrite lookup_insert_eq).
  destruct (max_rowid_held (<[k := v]> table)) as [Hz|[w Hw]]; [lia|].
  destruct (decide (Db.max_rowid (<[k := v]> table) = k)) as [|Hne]; [done|].
  rewrite lookup_insert_ne in Hw by done.
  apply max_rowid_ge in Hw. lia.
Qed.

(** The id that sqlite gives to a new row, while ids are left. *)
Lemma next_rowid_fresh {A} (table : gmap Z A) (seq : Z) :
  Z.max (Db.max_rowid table) seq < Db.MAX_ROWID →
  Db.next_rowid table seq = Db.Return (Z.max (Db.max_rowid table) seq + 1)
  ∧ table !! (Z.max (Db.max_rowid table) seq + 1) = None.
Proof.
  intros Hleft. unfold Db.next_rowid.
  destruct (Z.leb_spec Db.MAX_ROWID (Z.max (Db.max_rowid table) seq));
    [lia|].
  split; [done|].
  destruct (table !! (Z.max (Db.max_rowid table) seq + 1)) eqn:Hk; [|done].
  apply max_rowid_ge in Hk. lia.
Qed.

End Inserts.

Section Rows.

Local Open Scope Z_scope.

Variable env : Db.sqlite_env.

Lemma ids_above_S (base : Z) (n : nat) :
  ids_above base (S n) = (base + 1) :: ids_above (base + 1) n.
Proof.
  unfold ids_above. cbn [seq fmap list_fmap]. f_equal; [lia|].
  rewrite <- seq_shift, <- list_fmap_compose.
  apply list_fmap_ext. intros _ j _. cbn. lia.
Qed.

Lemma ids_above_lookup (base : Z) (n j : nat) :
  (j < n)%nat → ids_above base n !! j = Some (base + 1 + Z.of_nat j).
Proof.
  intros Hj. unfold ids_above. rewrite list_lookup_fmap.
  by rewrite lookup_seq_lt.
Qed.

(** The loop of [insert_action_items] when sqlite reports no error, the
    note exists and ids are left: the rows get the next ids, one after
    the other, and no other row changes. *)
Lemma insert_each_ok (note_id : option Z) (items : list str) :
  ∀ (k : nat) (conn : Db.database) (ids : list Z),
    (∀ j, (j < length items)%nat → Db.fault_at env (k + j) = None) →
    Db.dangling conn note_id = false →
    action_items_base env conn + Z.of_nat (length items) ≤ Db.MAX_ROWID →
    ∃ conn',
      Db.insert_each env k conn note_id items ids =
        (Db.Return (ids ++ ids_above (action_items_base env conn)
                             (length items)), conn')
      ∧ Db.notes conn' = Db.notes conn
      ∧ (∀ (j : nat) item, items !! j = Some item →
           Db.action_items conn'
             !! (action_items_base env conn + 1 + Z.of_nat j) =
           Some {| Db.note_id := note_id; Db.text := item; Db.done := 0;
                   Db.created_at := Db.now env (k + j) |})
      ∧ (∀ i, i ≤ action_items_base env conn
              ∨ action_items_base env conn + Z.of_nat (length items) < i →
           Db.action_items conn' !! i = Db.action_items conn !! i).
Proof.
  induction items as [|item items IH]; intros k conn ids Hfault Hnote Hleft.
  - exists conn. cbn [Db.insert_each length ids_above seq fmap list_fmap].
    rewrite app_nil_r. by repeat split.
  - cbn [length] in Hleft.
    assert (action_items_base env conn < Db.MAX_ROWID) as Hone by lia.
    destruct (next_rowid_fresh (Db.action_items conn)
                (Db.action_items_seq env) Hone) as [Hnext Hfresh].
    fold (action_items_base env conn) in Hnext, Hfresh.
    set (base := action_items_base env conn) in *.
    set (row := {| Db.note_id := note_id; Db.text := item; Db.done := 0;
                   Db.created_at := Db.now env k |}).
    set (conn1 := {| Db.notes := Db.notes conn;
                     Db.action_items :=
                       <[base + 1 := row]> (Db.action_items conn) |}).
    assert (action_items_base env conn1 = base + 1) as Hbase1.
    { unfold action_items_base, conn1. cbn [Db.action_items].
      rewrite max_rowid_insert; [subst base; unfold action_items_base; lia|].
      subst base. unfold action_items_base. lia. }
    destruct (IH (S k) conn1 (ids ++ [base + 1]))
      as (conn' & Hloop & Hnotes & Hrows & Hframe).
    { intros j Hj. replace (S k + j)%nat with (k + S j)%nat by lia.
      apply Hfault. cbn [length]. lia. }
    { done. }
    { rewrite Hbase1. lia. }
    exists conn'. cbn [Db.insert_each]. unfold Db.execute_insert_action_item.
    rewrite <- (Nat.add_0_r k) at 1. rewrite Hfault by (cbn [length]; lia).
    rewrite Hnext, Hnote. fold row. fold conn1.
    rewrite Hloop, Hbase1. cbn [length]. rewrite ids_above_S.
    rewrite <- app_assoc. split; [done|]. split; [done|]. split.
    + intros [|j] item' Hitem.
      * injection Hitem as <-. rewrite Hframe by (rewrite Hbase1; lia).
        unfold conn1. cbn [Db.action_items].
        rewrite Z.add_0_r, Nat.add_0_r, lookup_insert_eq. done.
      * cbn in Hitem. apply Hrows in Hitem. rewrite Hbase1 in Hitem.
        replace (base + 1 + Z.of_nat (S j)) with (base + 1 + 1 + Z.of_nat j)
          by lia.
        replace (k + S j)%nat with (S k + j)%nat by lia. done.
    + intros i Hi. rewrite Hframe by (rewrite Hbase1; lia).
      unfold conn1. cbn [Db.action_items].
      apply lookup_insert_ne. lia.
Qed.

(** The errors that leave the statements of the insertions are errors of
    sqlite. *)
Lemma insert_each_raises (note_id : option Z) (items : list str) :
  ∀ (k : nat) (conn conn' : Db.database) (ids : list Z) (e : Db.exn),
    Db.insert_each env k conn note_id items ids = (Db.Raise e, conn') →
    ∃ msg, e = Db.Sqlite3Error msg.
Proof.
  induction items as [|item items IH]; intros k conn conn' ids e;
    cbn [Db.insert_each]; [done|].
  unfold Db.execute_insert_action_item.
  destruct (Db.fault_at env k) as [msg|]; [intros [= <- _]; eauto|].
  unfold Db.next_rowid. destruct (Db.MAX_ROWID <=? _); [intros [= <- _]; eauto|].
  destruct (Db.dangling conn note_id); [intros [= <- _]; eauto|].
  apply IH.
Qed.

End Rows.

Section Insertions.

Local Open Scope Z_scope.

Variable env : Db.sqlite_env.

(** [insert_note] while sqlite reports no error and ids are left. *)
Lemma insert_note_ok (db : Db.database) (content : str) :
  Db.fault_at env 0 = None →
  notes_base env db < Db.MAX_ROWID →
  ∃ db',
    Db.insert_note env db content = (Db.Return (notes_base env db + 1), db')
    ∧ Db.notes db !! (notes_base env db + 1) = None
    ∧ Db.notes db' !! (notes_base env db + 1) =
        Some {| Db.content := content; Db.note_created_at := Db.now env 0 |}
    ∧ Db.get_note db' (notes_base env db + 1) =
        (Db.Return (Some {| Db.content := content;
                            Db.note_created_at := Db.now env 0 |}), db')
    ∧ (∀ other, other ≠ notes_base env db + 1 →
         Db.notes db' !! other = Db.notes db !! other)
    ∧ Db.action_items db' = Db.action_items db.
Proof.
  intros Hfault Hleft.
  destruct (next_rowid_fresh (Db.notes db) (Db.notes_seq env) Hleft)
    as [Hnext Hfresh].
  fold (notes_base env db) in Hnext, Hfresh.
  eexists. unfold Db.insert_note, Db.get_connection, Db.execute_insert_note.
  rewrite Hfault, Hnext. cbn [Db.or_database_error].
  split; [reflexivity|]. split; [done|].
  unfold Db.get_note, Db.get_connection. cbn [Db.or_database_error Db.notes].
  rewrite lookup_insert_eq. split; [done|]. split; [done|]. split; [|done].
  intros other Hother. by rewrite lookup_insert_ne.
Qed.

(** [insert_action_items] while sqlite reports no error, the note, if
    one is named, exists, and ids are left. *)
Lemma insert_action_items_ok (db : Db.database) (items : list str)
    (note_id : option Z) :
  (∀ j, (j < length items)%nat → Db.fault_at env j = None) →
  Db.dangling db note_id = false →
  action_items_base env db + Z.of_nat (length items) ≤ Db.MAX_ROWID →
  ∃ db',
    Db.insert_action_items env db items note_id =
      (Db.Return (ids_above (action_items_base env db) (length items)), db')
    ∧ Db.notes db' = Db.notes db
    ∧ (∀ (j : nat) item, items !! j = Some item →
         Db.action_items db !! (action_items_base env db + 1 + Z.of_nat j)
           = None
         ∧ Db.action_items db' !! (action_items_base env db + 1 + Z.of_nat j)
           = Some {| Db.note_id := note_id; Db.text := item; Db.done := 0;
                     Db.created_at := Db.now env j |}
         ∧ Db.get_action_item db'
             (action_items_base env db + 1 + Z.of_nat j) =
           (Db.Return
              (Some {| Db.note_id := note_id; Db.text := item; Db.done := 0;
                       Db.created_at := Db.now env j |}), db'))
    ∧ (∀ i row, Db.action_items db !! i = Some row →
         Db.action_items db' !! i = Some row)
    ∧ (∀ i, i ≤ action_items_base env db
            ∨ action_items_base env db + Z.of_nat (length items) < i →
         Db.action_items db' !! i = Db.action_items db !! i).
Proof.
  intros Hfault Hnote Hleft. unfold Db.insert_action_items.
  destruct items as [|item items].
  { exists db. cbn [Str.is_empty length ids_above seq fmap list_fmap].
    repeat split; try done. }
  cbn [Str.is_empty].
  destruct (insert_each_ok env note_id (item :: items) 0%nat db []
              Hfault Hnote Hleft) as (db' & Hloop & Hnotes & Hrows & Hframe).
  exists db'. unfold Db.get_connection. rewrite Hloop.
  cbn [Db.or_database_error app]. split; [done|]. split; [done|]. split.
  - intros j item' Hitem. split.
    + destruct (Db.action_items db !! _) eqn:Hold; [|done].
      apply max_rowid_ge in Hold. unfold action_items_base in Hold. lia.
    + split; [by apply Hrows|].
      unfold Db.get_action_item, Db.get_connection.
      by rewrite (Hrows j item' Hitem).
  - split; [|done]. intros i row Hi. rewrite Hframe; [done|]. left.
    apply max_rowid_ge in Hi. unfold action_items_base. lia.
Qed.

(** X11.  For a content that binds, while sqlite reports no error and
    ids are left, [insert_note] stores the content under an id that no
    note had, one more than the largest id that the table holds or has
    held; [get_note] then reads the content back, and no other note and
    no action item has changed. *)
Theorem insert_note_then_get_note (db : Db.database) (content : str) :
  Db.binds_text content = true →
  Db.fault_at env 0 = None →
  notes_base env db < Db.MAX_ROWID →
  ∃ db',
    Db.insert_note env db content = (Db.Return (notes_base env db + 1), db')
    ∧ Db.notes db !! (notes_base env db + 1) = None
    ∧ Db.get_note db' (notes_base env db + 1) =
        (Db.Return (Some {| Db.content := content;
                            Db.note_created_at := Db.now env 0 |}), db')
    ∧ (∀ other, other ≠ notes_base env db + 1 →
         Db.notes db' !! other = Db.notes db !! other)
    ∧ Db.action_items db' = Db.action_items db.
Proof.
  intros _ Hfault Hleft.
  destruct (insert_note_ok db content Hfault Hleft)
    as (db' & Hinsert & Hfresh & _ & Hget & Hothers & Hitems).
  by exists db'.
Qed.

(** X12.  For items and a note id that bind, while sqlite reports no
    error, the note, if one is named, exists, and ids are left,
    [insert_action_items] returns one id for each item, in the order of
    the items: the ids that follow the largest one that the table holds
    or has held.  No row had these ids; each now holds its item, not
    done, with the note, as [get_action_item] reads it; the rows that
    were there and the notes are as before. *)
Theorem insert_action_items_stored (db : Db.database) (items : list str)
    (note_id : option Z) :
  Forall (λ item, Db.binds_text item = true) items →
  Db.binds_note_id note_id = true →
  (∀ j, (j < length items)%nat → Db.fault_at env j = None) →
  Db.dangling db note_id = false →
  action_items_base env db + Z.of_nat (length items) ≤ Db.MAX_ROWID →
  ∃ db',
    Db.insert_action_items env db items note_id =
      (Db.Return (ids_above (action_items_base env db) (length items)), db')
    ∧ Db.notes db' = Db.notes db
    ∧ (∀ (j : nat) item, items !! j = Some item →
         Db.action_items db !! (action_items_base env db + 1 + Z.of_nat j)
           = None
         ∧ Db.get_action_item db'
             (action_items_base env db + 1 + Z.of_nat j) =
           (Db.Return
              (Some {| Db.note_id := note_id; Db.text := item; Db.done := 0;
                       Db.created_at := Db.now env j |}), db'))
    ∧ (∀ i row, Db.action_items db !! i = Some row →
         Db.action_items db' !! i = Some row).
Proof.
  intros _ _ Hfault Hnote Hleft.
  destruct (insert_action_items_ok db items note_id Hfault Hnote Hleft)
    as (db' & Hinsert & Hnotes & Hrows & Hframe & _).
  exists db'. split; [done|]. split; [done|]. split; [|done].
  intros j item Hitem. by destruct (Hrows j item Hitem) as (? & _ & ?).
Qed.

(** The insertions, when they fail. *)
Lemma insertion_failure (db db' : Db.database) (e : Db.exn) :
  (∀ content, Db.insert_note env db content = (Db.Raise e, db') →
     db' = db
     ∧ ∃ msg, e = Db.DatabaseError ("Database operation failed: " +:+ msg))
  ∧ (∀ items note_id,
       Db.insert_action_items env db items note_id = (Db.Raise e, db') →
       db' = db
       ∧ ∃ msg, e = Db.DatabaseError ("Database operation failed: " +:+ msg)).
Proof.
  split.
  - intros content. unfold Db.insert_note, Db.get_connection.
    destruct (Db.execute_insert_note env 0 db content) as [[id|e0] view] eqn:He;
      [done|].
    unfold Db.execute_insert_note, Db.next_rowid in He.
    destruct (Db.fault_at env 0) as [msg|];
      [|destruct (Db.MAX_ROWID <=? _)];
      simplify_eq; cbn; intros [= <- <-]; eauto.
  - intros items note_id. unfold Db.insert_action_items.
    destruct items as [|item items]; [done|]. cbn [Str.is_empty].
    unfold Db.get_connection.
    destruct (Db.insert_each env 0 db note_id (item :: items) [])
      as [[ids|e0] view] eqn:He; [done|].
    apply insert_each_raises in He as [msg ->].
    cbn. intros [= <- <-]; eauto.
Qed.

(** X13.  When [insert_note], for a content that binds, or
    [insert_action_items], for items and a note id that bind, fails,
    whichever statement failed, the store is as it was before the call,
    with none of the rows of the call, and the exception is a
    [DatabaseError] with the message that [get_connection] gives to an
    error of sqlite. *)
Theorem insertion_failure_atomic (db db' : Db.database) (e : Db.exn) :
  (∀ content,
     Db.binds_text content = true →
     Db.insert_note env db content = (Db.Raise e, db') →
     db' = db
     ∧ ∃ msg, e = Db.DatabaseError ("Database operation failed: " +:+ msg))
  ∧ (∀ items note_id,
       Forall (λ item, Db.binds_text item = true) items →
       Db.binds_note_id note_id = true →
       Db.insert_action_items env db items note_id = (Db.Raise e, db') →
       db' = db
       ∧ ∃ msg, e = Db.DatabaseError ("Database operation failed: " +:+ msg)).
Proof.
  destruct (insertion_failure db db' e) as [Hnote Hitems].
  split; [intros content _; apply Hnote|intros items note_id _ _; apply Hitems].
Qed.

(** X14.  With a first item to insert and a note id that both bind, the
    id being that of no note of the store, while sqlite reports no other
    error for the first statement and an id is left,
    [insert_action_items] fails on the foreign key and stores nothing. *)
Theorem insert_action_items_unknown_note (db : Db.database)
    (item : str) (items : list str) (n : Z) :
  Db.binds_text item = true →
  Db.binds_int n = true →
  Db.notes db !! n = None →
  Db.fault_at env 0 = None →
  action_items_base env db < Db.MAX_ROWID →
  Db.insert_action_items env db (item :: items) (Some n) =
    (Db.Raise
       (Db.DatabaseError
          "Database operation failed: FOREIGN KEY constraint failed"), db).
Proof.
  intros _ _ Hn Hfault Hleft.
  destruct (next_rowid_fresh (Db.action_items db)
              (Db.action_items_seq env) Hleft) as [Hnext _].
  unfold Db.insert_action_items, Db.get_connection. cbn [Str.is_empty].
  cbn [Db.insert_each]. unfold Db.execute_insert_action_item, Db.dangling.
  by rewrite Hfault, Hnext, Hn.
Qed.

End Insertions.

Section Marking.

Local Open Scope Z_scope.

(** X15.  Marking an item that the store holds changes the flag of that
    row and nothing else: its text, note and time of creation, the other
    action items and the notes are as before; and marking it again with
    the same flag changes nothing at all. *)
Theorem mark_action_item_done_frame (db : Db.database) (id : Z) (done : bool)
    (row : Db.action_item_row) :
  Db.action_items db !! id = Some row →
  ∃ db',
    Db.mark_action_item_done None db id done = (Db.Return tt, db')
    ∧ Db.action_items db' !! id =
        Some {| Db.note_id := Db.note_id row; Db.text := Db.text row;
                Db.done := if done then 1 else 0;
                Db.created_at := Db.created_at row |}
    ∧ (∀ other, other ≠ id →
         Db.action_items db' !! other = Db.action_items db !! other)
    ∧ Db.notes db' = Db.notes db
    ∧ Db.mark_action_item_done None db' id done = (Db.Return tt, db').
Proof.
  intros Hid. eexists.
  split; [by apply mark_action_item_done_present|].
  cbn [Db.action_items Db.notes].
  split; [by rewrite lookup_insert_eq|].
  split; [by intros other Hother; rewrite lookup_insert_ne|].
  split; [done|].
  erewrite mark_action_item_done_present;
    [|cbn [Db.action_items]; by rewrite lookup_insert_eq].
  cbn [Db.action_items Db.notes Db.note_id Db.text Db.created_at].
  by rewrite insert_insert_eq.
Qed.

(** X16.  The endpoint that marks an item never answers 404.  While
    sqlite reports no error, for an id that binds and that the store does
    not hold it answers 500, with the message of [get_connection] around
    that of the [ActionItemNotFoundError], and leaves the store as it is;
    for an id that the store holds it answers with the id and the
    flag. *)
Theorem mark_done_never_404 (fault : option string) (db : Db.database)
    (id : Z) (done : bool) :
  (∀ detail,
     (Api.mark_done fault db id done).1 ≠ Api.HTTPException 404 detail)
  ∧ (Db.binds_int id = true →
     Db.action_items db !! id = None →
     Api.mark_done None db id done =
       (Api.HTTPException 500
          ("Unexpected database error: Action item with id "
           +:+ pretty id +:+ " not found"), db))
  ∧ (is_Some (Db.action_items db !! id) →
     (Api.mark_done None db id done).1 =
       Api.Ok {| Api.md_id := id; Api.md_done := done |}).
Proof.
  split; [|split].
  - intros detail. unfold Api.mark_done, Db.mark_action_item_done,
      Db.get_connection, Db.execute_update_done.
    destruct fault as [msg|]; [|destruct (Db.action_items db !! id)];
      by cbn.
  - intros _ Hid. unfold Api.mark_done.
    by rewrite mark_action_item_done_absent.
  - intros [row Hid]. unfold Api.mark_done.
    by rewrite (mark_action_item_done_present _ _ _ _ Hid).
Qed.

(** X17.  What the answers of the endpoint that reads a note mean.  When
    it answers with a note, the store holds a note under the id, and the
    answer carries the id, the content and the time of creation of that
    note; when it answers 404, the store holds no note under the id, and
    the detail is the message of the [NoteNotFoundError] for the id.  In
    both cases the store is as before. *)
Theorem get_single_note_found (db db' : Db.database) (id : Z) :
  (∀ body,
     Api.get_single_note db id = (Api.Ok body, db') →
     db' = db
     ∧ ∃ note,
         Db.notes db !! id = Some note
         ∧ body = {| Api.nr_id := id; Api.nr_content := Db.content note;
                     Api.nr_created_at := Db.note_created_at note |})
  ∧ (∀ detail,
       Api.get_single_note db id = (Api.HTTPException 404 detail, db') →
       db' = db
       ∧ Db.notes db !! id = None
       ∧ detail = "Note with id " +:+ pretty id +:+ " not found").
Proof.
  unfold Api.get_single_note, Db.get_note, Db.get_connection.
  cbn [Db.or_database_error].
  destruct (Db.notes db !! id) as [note|]; split.
  - intros body [= <- <-]. eauto.
  - intros detail [=].
  - intros body [=].
  - by intros detail [= <- <-].
Qed.

(** X18.  While sqlite reports no error and ids are left, the endpoint
    that creates a note answers with the new id, the content and the time
    of creation, and the endpoint that reads a note then gives the same
    answer for that id. *)
Theorem create_note_then_get_single_note (env : Db.sqlite_env)
    (db : Db.database) (content : str) :
  Db.fault_at env 0 = None →
  notes_base env db < Db.MAX_ROWID →
  ∃ db',
    Api.create_note env db content =
      (Api.Ok {| Api.nr_id := notes_base env db + 1;
                 Api.nr_content := content;
                 Api.nr_created_at := Db.now env 0 |}, db')
    ∧ Api.get_single_note db' (notes_base env db + 1) =
      (Api.Ok {| Api.nr_id := notes_base env db + 1;
                 Api.nr_content := content;
                 Api.nr_created_at := Db.now env 0 |}, db').
Proof.
  intros Hfault Hleft.
  destruct (insert_note_ok env db content Hfault Hleft)
    as (db' & Hinsert & _ & _ & Hget & _).
  exists db'. unfold Api.create_note, Api.get_single_note.
  by rewrite Hinsert, Hget.
Qed.

End Marking.

(** ** The endpoint of the extraction *)

Section Endpoint.

Local Open Scope Z_scope.

Variable unicode_lower : str -> str.
Variable unicode_decimal : char -> bool.

(** The loop that reads the times of creation back never fails and
    leaves the store as it is. *)
Lemma fetch_created_at_fetched (db : Db.database)
    (action_items : list Api.ActionItemResponse) :
  Api.fetch_created_at db action_items =
    (Db.Return (map (fetched db) action_items), db).
Proof.
  induction action_items as [|action_item rest IH];
    cbn [Api.fetch_created_at map]; [done|].
  unfold Db.get_action_item, Db.get_connection. rewrite IH.
  unfold fetched. by destruct (Db.action_items db !! _).
Qed.

(** The responses read back for rows stored one after the other. *)
Lemma fetched_stored (env : Db.sqlite_env) (db : Db.database)
    (note_id : option Z) (items : list str) :
  ∀ (base : Z) (k : nat),
    (∀ (j : nat) item, items !! j = Some item →
       Db.action_items db !! (base + 1 + Z.of_nat j) =
       Some {| Db.note_id := note_id; Db.text := item; Db.done := 0;
               Db.created_at := Db.now env (k + j) |}) →
    map (fetched db)
      (map (new_response note_id) (combine (ids_above base (length items)) items))
    = imap (λ (j : nat) item,
              {| Api.ai_id := base + 1 + Z.of_nat j;
                 Api.ai_note_id := note_id; Api.ai_text := item;
                 Api.ai_done := false;
                 Api.ai_created_at := Db.now env (k + j) |}) items.
Proof.
  induction items as [|item items IH]; intros base k Hrows; [done|].
  cbn [length]. rewrite ids_above_S. cbn [combine map imap].
  f_equal.
  - unfold fetched, new_response. cbn [Api.ai_id fst snd].
    pose proof (Hrows 0%nat item eq_refl) as Hrow.
    rewrite Z.add_0_r in Hrow. rewrite Hrow. cbn. by rewrite Z.add_0_r.
  - rewrite (IH (base + 1) (S k)).
    + apply imap_ext. intros j item' _. cbn. f_equal; [lia|].
      f_equal. lia.
    + intros j item' Hitem. specialize (Hrows (S j) item' Hitem).
      replace (base + 1 + 1 + Z.of_nat j) with (base + 1 + Z.of_nat (S j))
        by lia.
      rewrite Hrows. do 3 f_equal. lia.
Qed.

Lemma new_response_map (note_id : option Z) (entries : list (Z * str)) :
  map (fun '(item_id, item_text) =>
         {| Api.ai_id := item_id; Api.ai_note_id := note_id;
            Api.ai_text := item_text; Api.ai_done := false;
            Api.ai_created_at := "" |}) entries =
  map (new_response note_id) entries.
Proof. apply map_ext. by intros [item_id item_text]. Qed.

(** What [action_items.extract] does once the note, if asked for, is
    saved under [note_id] in [db1]. *)
Lemma extract_items_ok (items_env : Db.sqlite_env) (db1 : Db.database)
    (note_id : option Z) (items : list str) :
  (∀ j, (j < length items)%nat → Db.fault_at items_env j = None) →
  Db.dangling db1 note_id = false →
  action_items_base items_env db1 + Z.of_nat (length items) ≤ Db.MAX_ROWID →
  ∃ db2,
    (if Str.is_empty items then (Db.Return [], db1)
     else Db.insert_action_items items_env db1 items note_id) =
      (Db.Return (ids_above (action_items_base items_env db1) (length items)),
       db2)
    ∧ Api.fetch_created_at db2
        (map (new_response note_id)
           (combine (ids_above (action_items_base items_env db1)
                       (length items)) items)) =
      (Db.Return (stored_responses items_env
                    (action_items_base items_env db1) note_id items), db2)
    ∧ Db.notes db2 = Db.notes db1
    ∧ (∀ (j : nat) item, items !! j = Some item →
         Db.action_items db2
           !! (action_items_base items_env db1 + 1 + Z.of_nat j) =
         Some {| Db.note_id := note_id; Db.text := item; Db.done := 0;
                 Db.created_at := Db.now items_env j |})
    ∧ (∀ i row, Db.action_items db1 !! i = Some row →
         Db.action_items db2 !! i = Some row).
Proof.
  intros Hfault Hnote Hleft.
  destruct (insert_action_items_ok items_env db1 items note_id
              Hfault Hnote Hleft)
    as (db2 & Hinsert & Hnotes & Hrows & Hframe & _).
  exists db2. split.
  { destruct items; [|done]. by rewrite <- Hinsert. }
  split.
  { rewrite fetch_created_at_fetched. do 2 f_equal. unfold stored_responses.
    apply (fetched_stored items_env db2 note_id items _ 0%nat).
    intros j item Hitem. by destruct (Hrows j item Hitem) as (_ & ? & _). }
  split; [done|]. split; [|done].
  intros j item Hitem. by destruct (Hrows j item Hitem) as (_ & ? & _).
Qed.

(** X19.  While sqlite reports no error and ids are left, the endpoint
    of the extraction answers with the items that the chosen method
    returns, in their order and one response for each: the item of rank
    [j] has the id that follows the largest id of the table by [j + 1],
    is not done, belongs to the note saved for the request, if one was
    asked for, and is stored as the response says; the note holds the
    text of the request. *)
Theorem extract_response (note_env items_env : Db.sqlite_env)
    (reply : llm_reply) (db : Db.database)
    (request : Schemas.ExtractActionItemsRequest) :
  (Schemas.save_note request = true →
   Db.fault_at note_env 0 = None ∧ notes_base note_env db < Db.MAX_ROWID) →
  (∀ j, (j < length (requested_items unicode_lower unicode_decimal reply
                       request))%nat →
     Db.fault_at items_env j = None) →
  action_items_base items_env db
  + Z.of_nat (length (requested_items unicode_lower unicode_decimal reply
                        request)) ≤ Db.MAX_ROWID →
  ∃ db',
    Api.extract unicode_lower unicode_decimal note_env items_env reply db
      request =
      (Api.Ok
         {| Api.er_note_id :=
              if Schemas.save_note request
              then Some (notes_base note_env db + 1) else None;
            Api.er_items :=
              stored_responses items_env (action_items_base items_env db)
                (if Schemas.save_note request
                 then Some (notes_base note_env db + 1) else None)
                (requested_items unicode_lower unicode_decimal reply request);
            Api.er_extraction_method := requested_method request |}, db')
    ∧ (∀ (j : nat) item,
         requested_items unicode_lower unicode_decimal reply request !! j
           = Some item →
         Db.action_items db'
           !! (action_items_base items_env db + 1 + Z.of_nat j) =
         Some {| Db.note_id :=
                   if Schemas.save_note request
                   then Some (notes_base note_env db + 1) else None;
                 Db.text := item; Db.done := 0;
                 Db.created_at := Db.now items_env j |})
    ∧ (Schemas.save_note request = true →
       Db.notes db' !! (notes_base note_env db + 1) =
       Some {| Db.content := Schemas.text request;
               Db.note_created_at := Db.now note_env 0 |}).
Proof.
  intros Hnote Hfault Hleft.
  unfold Api.extract, Api.saved_note, Api.respond_with_items.
  destruct (Schemas.save_note request) eqn:Hsave.
  - destruct (Hnote eq_refl) as [Hfault0 Hleft0].
    destruct (insert_note_ok note_env db (Schemas.text request)
                Hfault0 Hleft0)
      as (db1 & Hinsert & _ & Hnew & _ & _ & Hitems).
    rewrite Hinsert.
    assert (action_items_base items_env db1 = action_items_base items_env db)
      as Hbase by (unfold action_items_base; by rewrite Hitems).
    destruct (extract_items_ok items_env db1
                (Some (notes_base note_env db + 1))
                (requested_items unicode_lower unicode_decimal reply request))
      as (db2 & Hinserted & Hfetched & Hnotes & Hrows & _).
    { done. }
    { unfold Db.dangling. by rewrite Hnew. }
    { by rewrite Hbase. }
    rewrite Hbase in *. exists db2.
    unfold requested_items, requested_method in *.
    destruct (Schemas.use_llm request);
      rewrite Hinserted, new_response_map, Hfetched;
      (split; [done|]); (split; [done|]); intros _; by rewrite Hnotes.
  - destruct (extract_items_ok items_env db None
                (requested_items unicode_lower unicode_decimal reply request))
      as (db2 & Hinserted & Hfetched & Hnotes & Hrows & _); [done..|].
    exists db2. unfold requested_items, requested_method in *.
    destruct (Schemas.use_llm request);
      rewrite Hinserted, new_response_map, Hfetched;
      (split; [done|]); (split; [done|]); done.
Qed.

(** X20.  The endpoint of the extraction is not atomic: when the note is
    saved and sqlite then reports an error for the first item, the
    request fails with 500 and the message of that error, no item is
    stored, and the note stays in the store. *)
Theorem extract_keeps_note_on_failure (note_env items_env : Db.sqlite_env)
    (reply : llm_reply) (db : Db.database)
    (request : Schemas.ExtractActionItemsRequest) (msg : string) :
  Schemas.save_note request = true →
  Db.fault_at note_env 0 = None → notes_base note_env db < Db.MAX_ROWID →
  requested_items unicode_lower unicode_decimal reply request ≠ [] →
  Db.fault_at items_env 0 = Some msg →
  ∃ db',
    Api.extract unicode_lower unicode_decimal note_env items_env reply db
      request =
      (Api.HTTPException 500 ("Database operation failed: " +:+ msg), db')
    ∧ Db.notes db' !! (notes_base note_env db + 1) =
      Some {| Db.content := Schemas.text request;
              Db.note_created_at := Db.now note_env 0 |}
    ∧ Db.notes db !! (notes_base note_env db + 1) = None
    ∧ Db.action_items db' = Db.action_items db.
Proof.
  intros Hsave Hfault0 Hleft0 Hitems Hfault.
  destruct (insert_note_ok note_env db (Schemas.text request) Hfault0 Hleft0)
    as (db1 & Hinsert & Hfresh & Hnew & _ & _ & Hsame).
  exists db1. unfold Api.extract, Api.saved_note, Api.respond_with_items.
  rewrite Hsave, Hinsert.
  unfold requested_items in Hitems.
  split; [|done].
  destruct (Schemas.use_llm request).
  - destruct (extract_action_items_llm reply) as [|item items]; [done|].
    cbn [Str.is_empty]. unfold Db.insert_action_items, Db.get_connection.
    cbn [Str.is_empty Db.insert_each]. unfold Db.execute_insert_action_item.
    by rewrite Hfault.
  - destruct (extract_action_items _ _ _) as [|item items]; [done|].
    cbn [Str.is_empty]. unfold Db.insert_action_items, Db.get_connection.
    cbn [Str.is_empty Db.insert_each]. unfold Db.execute_insert_action_item.
    by rewrite Hfault.
Qed.

End Endpoint.

(** ** Instances of the further properties with a premise *)

Lemma get_connection_failure_witness :
  Db.get_connection one_item_store
    (λ connection, (Db.Raise (A := unit) (Db.ActionItemNotFoundError 2),
                    connection)) =
    (Db.Raise (Db.DatabaseError
                 "Unexpected database error: Action item with id 2 not found"),
     one_item_store)
  ∧ one_item_store = one_item_store
  ∧ ∃ msg,
      Db.DatabaseError
        "Unexpected database error: Action item with id 2 not found" =
      Db.DatabaseError msg.
Proof.
  assert (Db.get_connection one_item_store
            (λ connection, (Db.Raise (A := unit) (Db.ActionItemNotFoundError 2),
                            connection)) =
          (Db.Raise (Db.DatabaseError
                       "Unexpected database error: Action item with id 2 not found"),
           one_item_store)) as Hraise by reflexivity.
  split; [exact Hraise|].
  exact (get_connection_failure _ _ _ _ Hraise).
Defined.

Lemma insert_note_then_get_note_witness :
  ∃ db',
    Db.insert_note quiet_env one_item_store (py "Meeting notes") =
      (Db.Return (notes_base quiet_env one_item_store + 1)%Z, db')
    ∧ Db.notes one_item_store
        !! (notes_base quiet_env one_item_store + 1)%Z = None
    ∧ Db.get_note db' (notes_base quiet_env one_item_store + 1)%Z =
        (Db.Return (Some {| Db.content := py "Meeting notes";
                            Db.note_created_at := Db.now quiet_env 0 |}), db')
    ∧ (∀ other, other ≠ (notes_base quiet_env one_item_store + 1)%Z →
         Db.notes db' !! other = Db.notes one_item_store !! other)
    ∧ Db.action_items db' = Db.action_items one_item_store.
Proof.
  apply (insert_note_then_get_note quiet_env one_item_store
           (py "Meeting notes")); [reflexivity|reflexivity|by vm_compute].
Defined.

Lemma insert_action_items_stored_witness :
  ∃ db',
    Db.insert_action_items quiet_env one_item_store
      [py "Set up database"; py "Implement API"] None =
      (Db.Return (ids_above (action_items_base quiet_env one_item_store) 2),
       db')
    ∧ Db.notes db' = Db.notes one_item_store
    ∧ (∀ (j : nat) item,
         [py "Set up database"; py "Implement API"] !! j = Some item →
         Db.action_items one_item_store
           !! (action_items_base quiet_env one_item_store + 1 + Z.of_nat j)%Z
           = None
         ∧ Db.get_action_item db'
             (action_items_base quiet_env one_item_store + 1 + Z.of_nat j)%Z =
           (Db.Return
              (Some {| Db.note_id := None; Db.text := item; Db.done := 0;
                       Db.created_at := Db.now quiet_env j |}), db'))
    ∧ (∀ i row, Db.action_items one_item_store !! i = Some row →
         Db.action_items db' !! i = Some row).
Proof.
  apply (insert_action_items_stored quiet_env one_item_store
           [py "Set up database"; py "Implement API"] None);
    [by repeat constructor|reflexivity|reflexivity|reflexivity|by vm_compute].
Defined.

Lemma insertion_failure_atomic_witness :
  Db.insert_note locked_env one_item_store (py "Meeting notes") =
    (Db.Raise (Db.DatabaseError
                 "Database operation failed: database is locked"),
     one_item_store)
  ∧ one_item_store = one_item_store
  ∧ ∃ msg,
      Db.DatabaseError "Database operation failed: database is locked" =
      Db.DatabaseError ("Database operation failed: " +:+ msg).
Proof.
  assert (Db.insert_note locked_env one_item_store (py "Meeting notes") =
          (Db.Raise (Db.DatabaseError
                       "Database operation failed: database is locked"),
           one_item_store)) as Hraise by reflexivity.
  split; [exact Hraise|].
  exact (proj1 (insertion_failure_atomic locked_env one_item_store
                  one_item_store _) (py "Meeting notes") eq_refl Hraise).
Defined.

Lemma insert_action_items_unknown_note_witness :
  Db.insert_action_items quiet_env one_item_store [py "Set up database"]
    (Some 7%Z) =
    (Db.Raise
       (Db.DatabaseError
          "Database operation failed: FOREIGN KEY constraint failed"),
     one_item_store).
Proof.
  apply (insert_action_items_unknown_note quiet_env one_item_store
           (py "Set up database") [] 7%Z);
    [reflexivity|reflexivity|reflexivity|reflexivity|by vm_compute].
Defined.

Lemma mark_action_item_done_frame_witness :
  ∃ db',
    Db.mark_action_item_done None one_item_store 1 true = (Db.Return tt, db')
    ∧ Db.action_items db' !! 1%Z =
        Some {| Db.note_id := None; Db.text := py "Write unit tests";
                Db.done := 1; Db.created_at := "2024-12-27 10:00:00" |}
    ∧ (∀ other, other ≠ 1%Z →
         Db.action_items db' !! other
         = Db.action_items one_item_store !! other)
    ∧ Db.notes db' = Db.notes one_item_store
    ∧ Db.mark_action_item_done None db' 1 true = (Db.Return tt, db').
Proof.
  apply (mark_action_item_done_frame one_item_store 1 true
           {| Db.note_id := None; Db.text := py "Write unit tests";
              Db.done := 0; Db.created_at := "2024-12-27 10:00:00" |}).
  reflexivity.
Defined.

Lemma mark_done_never_404_witness :
  Api.mark_done None one_item_store 2 true =
    (Api.HTTPException 500
       ("Unexpected database error: Action item with id "
        +:+ pretty 2%Z +:+ " not found"), one_item_store)
  ∧ (Api.mark_done None one_item_store 1 true).1 =
    Api.Ok {| Api.md_id := 1; Api.md_done := true |}.
Proof.
  destruct (mark_done_never_404 None one_item_store 2 true)
    as (_ & Habsent & _).
  destruct (mark_done_never_404 None one_item_store 1 true)
    as (_ & _ & Hpresent).
  split; [apply Habsent; reflexivity|apply Hpresent; by eexists].
Defined.

Lemma get_single_note_found_witness :
  Api.get_single_note one_item_store 3 =
    (Api.HTTPException 404 "Note with id 3 not found", one_item_store)
  ∧ one_item_store = one_item_store
  ∧ Db.notes one_item_store !! 3%Z = None
  ∧ "Note with id 3 not found" = "Note with id " +:+ pretty 3%Z +:+ " not found".
Proof.
  assert (Api.get_single_note one_item_store 3 =
          (Api.HTTPException 404 "Note with id 3 not found", one_item_store))
    as Hanswer by reflexivity.
  split; [exact Hanswer|].
  exact (proj2 (get_single_note_found one_item_store one_item_store 3)
           "Note with id 3 not found" Hanswer).
Defined.

Lemma create_note_then_get_single_note_witness :
  ∃ db',
    Api.create_note quiet_env one_item_store (py "Meeting notes") =
      (Api.Ok {| Api.nr_id := (notes_base quiet_env one_item_store + 1)%Z;
                 Api.nr_content := py "Meeting notes";
                 Api.nr_created_at := Db.now quiet_env 0 |}, db')
    ∧ Api.get_single_note db' (notes_base quiet_env one_item_store + 1)%Z =
      (Api.Ok {| Api.nr_id := (notes_base quiet_env one_item_store + 1)%Z;
                 Api.nr_content := py "Meeting notes";
                 Api.nr_created_at := Db.now quiet_env 0 |}, db').
Proof.
  apply (create_note_then_get_single_note quiet_env one_item_store
           (py "Meeting notes")); [reflexivity|by vm_compute].
Defined.

Lemma extract_response_witness :
  ∃ db',
    Api.extract ascii_lower_table ascii_decimal_table quiet_env quiet_env
      NoContent one_item_store bullets_request =
      (Api.Ok
         {| Api.er_note_id := Some (notes_base quiet_env one_item_store + 1)%Z;
            Api.er_items :=
              stored_responses quiet_env
                (action_items_base quiet_env one_item_store)
                (Some (notes_base quiet_env one_item_store + 1)%Z)
                [py "Set up database"; py "Implement API"];
            Api.er_extraction_method := "heuristic" |}, db')
    ∧ Db.notes db' !! (notes_base quiet_env one_item_store + 1)%Z =
      Some {| Db.content := Schemas.text bullets_request;
              Db.note_created_at := Db.now quiet_env 0 |}.
Proof.
  destruct (extract_response ascii_lower_table ascii_decimal_table
              quiet_env quiet_env NoContent one_item_store bullets_request)
    as (db' & Hresponse & _ & Hnote).
  - intros _. split; [reflexivity|by vm_compute].
  - intros j _. reflexivity.
  - by vm_compute.
  - exists db'. split; [exact Hresponse|apply Hnote; reflexivity].
Defined.

Lemma extract_keeps_note_on_failure_witness :
  ∃ db',
    Api.extract ascii_lower_table ascii_decimal_table quiet_env locked_env
      NoContent one_item_store bullets_request =
      (Api.HTTPException 500
         ("Database operation failed: " +:+ "database is locked"), db')
    ∧ Db.notes db' !! (notes_base quiet_env one_item_store + 1)%Z =
      Some {| Db.content := Schemas.text bullets_request;
              Db.note_created_at := Db.now quiet_env 0 |}
    ∧ Db.notes one_item_store
        !! (notes_base quiet_env one_item_store + 1)%Z = None
    ∧ Db.action_items db' = Db.action_items one_item_store.
Proof.
  apply (extract_keeps_note_on_failure ascii_lower_table ascii_decimal_table
           quiet_env locked_env NoContent one_item_store bullets_request
           "database is locked");
    [reflexivity|reflexivity|by vm_compute|by vm_compute|reflexivity].
Defined.

(** ** Listings *)

Section Listings.

Local Open Scope Z_scope.

Local Instance flip_Zle_total : Total (flip Z.le).
Proof. intros x y. unfold flip. lia. Qed.

Local Instance flip_Zle_trans : Transitive (flip Z.le).
Proof. intros x y z. unfold flip. lia. Qed.

(** The ids of a listing: each id of the table once, the largest
    first. *)
Lemma ids_desc_spec {A} (table : gmap Z A) :
  StronglySorted (flip Z.le) (Db.ids_desc table)
  ∧ NoDup (Db.ids_desc table)
  ∧ ∀ id, id ∈ Db.ids_desc table ↔ is_Some (table !! id).
Proof.
  unfold Db.ids_desc. split; [|split].
  - apply StronglySorted_merge_sort; apply _.
  - rewrite merge_sort_Permutation. apply NoDup_elements.
  - intros id. by rewrite merge_sort_Permutation, elem_of_elements, elem_of_dom.
Qed.

(** Two listings of the same ids are the same. *)
Lemma ids_desc_unique (l1 l2 : list Z) :
  StronglySorted (flip Z.le) l1 → StronglySorted (flip Z.le) l2 →
  NoDup l1 → NoDup l2 → (∀ id, id ∈ l1 ↔ id ∈ l2) → l1 = l2.
Proof.
  intros Hs1 Hs2 Hn1 Hn2 Hin.
  apply (StronglySorted_unique_strong (flip Z.le)); [|done..|].
  - intros x1 x2 _ _. unfold flip. lia.
  - by apply NoDup_Permutation.
Qed.

Lemma ids_above_snoc (base : Z) (n : nat) :
  ids_above base (S n) = ids_above base n ++ [base + 1 + Z.of_nat n].
Proof. unfold ids_above. by rewrite seq_S, fmap_app. Qed.

Lemma elem_of_ids_above (base : Z) (n : nat) (id : Z) :
  id ∈ ids_above base n ↔ base < id ≤ base + Z.of_nat n.
Proof.
  unfold ids_above. rewrite list_elem_of_fmap. split.
  - intros (j & -> & Hj). apply elem_of_seq in Hj. lia.
  - intros Hid. exists (Z.to_nat (id - base - 1)). split; [lia|].
    apply elem_of_seq. lia.
Qed.

(** The new ids, the last one first, before ids that are not above
    [base]. *)
Lemma ids_above_desc (base : Z) (n : nat) (below : list Z) :
  StronglySorted (flip Z.le) below → NoDup below →
  Forall (λ id, id ≤ base) below →
  StronglySorted (flip Z.le) (reverse (ids_above base n) ++ below)
  ∧ NoDup (reverse (ids_above base n) ++ below).
Proof.
  intros Hsorted Hnodup Hbelow. induction n as [|n [IHs IHn]]; [done|].
  rewrite ids_above_snoc, reverse_app. cbn [reverse rev_append app].
  split.
  - constructor; [done|]. apply Forall_forall. intros id Hid. unfold flip.
    apply elem_of_app in Hid as [Hid|Hid].
    + apply elem_of_reverse, elem_of_ids_above in Hid. lia.
    + rewrite Forall_forall in Hbelow. specialize (Hbelow id Hid). lia.
  - constructor; [|done]. intros Hid.
    apply elem_of_app in Hid as [Hid|Hid].
    + apply elem_of_reverse, elem_of_ids_above in Hid. lia.
    + rewrite Forall_forall in Hbelow. specialize (Hbelow _ Hid). lia.
Qed.

(** The listing of a table that got rows above [base], all its other
    rows being as they were in a table with no id above [base]. *)
Lemma ids_desc_above {A} (table table' : gmap Z A) (base : Z) (n : nat) :
  (∀ id v, table !! id = Some v → id ≤ base) →
  (∀ id, is_Some (table' !! id) ↔
         is_Some (table !! id) ∨ base < id ≤ base + Z.of_nat n) →
  Db.ids_desc table' = reverse (ids_above base n) ++ Db.ids_desc table.
Proof.
  intros Hbase Hdom.
  destruct (ids_desc_spec table) as (Hs & Hn & Hin).
  destruct (ids_desc_spec table') as (Hs' & Hn' & Hin').
  destruct (ids_above_desc base n (Db.ids_desc table) Hs Hn) as [Hs2 Hn2].
  { apply Forall_forall. intros id [v Hid]%Hin. by apply (Hbase id v). }
  apply ids_desc_unique; [done..|].
  intros id. rewrite Hin', Hdom, elem_of_app, elem_of_reverse,
    elem_of_ids_above, Hin. tauto.
Qed.

End Listings.

Section ListedRows.

Local Open Scope Z_scope.

Lemma omap_lookup_ids {A} (table : gmap Z A) (ids : list Z) :
  Forall (λ id, is_Some (table !! id)) ids →
  (omap (λ id, pair id <$> table !! id) ids).*1 = ids.
Proof.
  induction 1 as [|id ids [v Hid] _ IH]; [done|].
  cbn [omap list_omap]. rewrite Hid. cbn. by rewrite IH.
Qed.

(** The rows of a listing: the rows of the table, in the order of the
    ids. *)
Lemma rows_desc_spec {A} (table : gmap Z A) :
  (Db.rows_desc table).*1 = Db.ids_desc table
  ∧ ∀ id row, (id, row) ∈ Db.rows_desc table ↔ table !! id = Some row.
Proof.
  destruct (ids_desc_spec table) as (_ & _ & Hin). split.
  - apply omap_lookup_ids, Forall_forall. intros id. apply Hin.
  - intros id row. unfold Db.rows_desc. rewrite list_elem_of_omap. split.
    + intros (id' & _ & Hrow).
      destruct (table !! id') as [v|] eqn:Hid'; [|done].
      by injection Hrow as -> ->.
    + intros Hid. exists id. split; [apply Hin; eauto|]. by rewrite Hid.
Qed.

Lemma rows_strictly_desc {A} (rows : list (Z * A)) :
  StronglySorted (flip Z.le) rows.*1 → NoDup rows.*1 →
  StronglySorted (λ x y, y.1 < x.1) rows.
Proof.
  induction rows as [|[id row] rows IH]; [constructor|].
  cbn [fmap list_fmap fst]. intros Hs Hn.
  apply StronglySorted_inv in Hs as [Hs Hhd]. apply NoDup_cons in Hn as [Hid Hn].
  constructor; [by apply IH|].
  apply Forall_forall. intros [id' row'] Hin. cbn [fst].
  assert (id' ∈ rows.*1) as Hin'
    by (apply list_elem_of_fmap; by exists (id', row')).
  rewrite Forall_forall in Hhd. specialize (Hhd id' Hin'). unfold flip in Hhd.
  destruct (decide (id' = id)) as [->|]; [done|lia].
Qed.

Lemma StronglySorted_List_filter {A} (R : relation A) (f : A → bool)
    (l : list A) :
  StronglySorted R l → StronglySorted R (List.filter f l).
Proof.
  induction 1 as [|x l _ IH Hx]; cbn [List.filter]; [constructor|].
  destruct (f x); [|done]. constructor; [done|].
  apply Forall_forall. intros y Hy.
  rewrite list_elem_of_In in Hy. apply filter_In in Hy as [Hy _].
  rewrite Forall_forall in Hx. by apply Hx, list_elem_of_In.
Qed.

Lemma of_note_listed_for (n : Z) (entry : Z * Db.action_item_row) :
  Db.of_note n entry = true ↔ listed_for (Some n) entry.2.
Proof.
  unfold Db.of_note, listed_for. destruct (Db.note_id entry.2) as [m|].
  - rewrite Z.eqb_eq. split; [by intros ->|by intros [= ->]].
  - done.
Qed.

(** X21.  The list that [list_action_items] returns holds each action
    item of the store once, or each one of the note when a note is
    given, and no other row, by strictly decreasing id; the store is as
    before. *)
Theorem list_action_items_complete (db db' : Db.database)
    (note_id : option Z) (rows : list (Z * Db.action_item_row)) :
  Db.list_action_items db note_id = (Db.Return rows, db') →
  db' = db
  ∧ StronglySorted (λ x y, y.1 < x.1) rows
  ∧ ∀ id row,
      (id, row) ∈ rows ↔
      Db.action_items db !! id = Some row ∧ listed_for note_id row.
Proof.
  destruct (rows_desc_spec (Db.action_items db)) as [Hids Hrows].
  destruct (ids_desc_spec (Db.action_items db)) as (Hsorted & Hnodup & _).
  assert (StronglySorted (λ x y : Z * Db.action_item_row, y.1 < x.1)
            (Db.rows_desc (Db.action_items db))) as Hdesc
    by (apply rows_strictly_desc; by rewrite Hids).
  unfold Db.list_action_items, Db.get_connection.
  destruct note_id as [n|]; cbn [Db.or_database_error]; intros [= <- <-].
  - split; [done|]. split; [by apply StronglySorted_List_filter|].
    intros id row. rewrite list_elem_of_In, filter_In, <- list_elem_of_In.
    by rewrite Hrows, of_note_listed_for.
  - split; [done|]. split; [done|].
    intros id row. rewrite Hrows. cbn. tauto.
Qed.

End ListedRows.

Lemma list_action_items_complete_witness :
  Db.list_action_items one_item_store None =
    (Db.Return (Db.rows_desc (Db.action_items one_item_store)),
     one_item_store)
  ∧ one_item_store = one_item_store
  ∧ StronglySorted (λ x y, (y.1 < x.1)%Z)
      (Db.rows_desc (Db.action_items one_item_store))
  ∧ ∀ id row,
      (id, row) ∈ Db.rows_desc (Db.action_items one_item_store) ↔
      Db.action_items one_item_store !! id = Some row ∧ listed_for None row.
Proof.
  assert (Db.list_action_items one_item_store None =
          (Db.Return (Db.rows_desc (Db.action_items one_item_store)),
           one_item_store)) as Hlist by reflexivity.
  split; [exact Hlist|].
  exact (list_action_items_complete one_item_store one_item_store None _ Hlist).
Defined.

Section NewestFirst.

Local Open Scope Z_scope.

Lemma omap_eq_on {A B} (f g : A → option B) (l : list A) :
  (∀ x, x ∈ l → f x = g x) → omap f l = omap g l.
Proof.
  induction l as [|x l IH]; intros Hfg; [done|]. cbn [omap list_omap].
  rewrite (Hfg x) by (by left). rewrite IH; [done|].
  intros y Hy. apply Hfg. by right.
Qed.







End NewestFirst.



(** ** The two endpoints of the extraction, and the listing of the notes *)

Section Endpoints.

Local Open Scope Z_scope.

Variable unicode_lower : str -> str.
Variable unicode_decimal : char -> bool.

(** The answer to a [DatabaseError] does not depend on the handler. *)
Lemma extraction_error_500_database {A} (prefix prefix' : string)
    (msg : string) :
  Api.extraction_error_500 (A := A) prefix (Db.DatabaseError msg) =
  Api.extraction_error_500 prefix' (Db.DatabaseError msg).
Proof. done. Qed.

Lemma respond_with_items_prefix (prefix prefix' : string)
    (items_env : Db.sqlite_env) (db1 : Db.database) (note_id : option Z)
    (items : list str) (extraction_method : string) :
  Api.respond_with_items prefix items_env db1 note_id items extraction_method
  = Api.respond_with_items prefix' items_env db1 note_id items
      extraction_method.
Proof.
  unfold Api.respond_with_items.
  destruct items as [|item items]; cbn [Str.is_empty];
    [by rewrite !new_response_map, !fetch_created_at_fetched|].
  destruct (Db.insert_action_items items_env db1 (item :: items) note_id)
    as [[ids|e] db2] eqn:Hinsert.
  - by rewrite !new_response_map, !fetch_created_at_fetched.
  - destruct (proj2 (insertion_failure items_env db1 db2 e) _ _ Hinsert)
      as [_ [msg ->]].
    by rewrite (extraction_error_500_database prefix prefix').
Qed.

(** X24.  For a request that asks for the language model, the endpoint
    [extract_llm] and the endpoint [extract] give the same answer and
    leave the same store, whatever sqlite and the model do. *)
Theorem extract_llm_as_extract (note_env items_env : Db.sqlite_env)
    (reply : llm_reply) (db : Db.database)
    (request : Schemas.ExtractActionItemsRequest) :
  Schemas.use_llm request = true →
  Api.extract_llm note_env items_env reply db request =
  Api.extract unicode_lower unicode_decimal note_env items_env reply db
    request.
Proof.
  intros Hllm. unfold Api.extract_llm, Api.extract. rewrite Hllm.
  destruct (Api.saved_note note_env db request) as [[note_id|e] db1] eqn:Hsaved.
  - apply respond_with_items_prefix.
  - unfold Api.saved_note in Hsaved.
    destruct (Schemas.save_note request); [|done].
    destruct (Db.insert_note note_env db (Schemas.text request))
      as [[id|e0] db0] eqn:Hinsert; [done|].
    injection Hsaved as <- <-.
    destruct (proj1 (insertion_failure note_env db db0 e0) _ Hinsert)
      as [_ [msg ->]].
    by rewrite (extraction_error_500_database _ "Extraction failed").
Qed.

(** The listing of a table once it holds one more row, above all the
    others. *)
Lemma rows_desc_new {A} (table table' : gmap Z A) (id : Z) (v : A) :
  (∀ k w, table !! k = Some w → k < id) →
  table' !! id = Some v →
  (∀ k, k ≠ id → table' !! k = table !! k) →
  Db.rows_desc table' = (id, v) :: Db.rows_desc table.
Proof.
  intros Hbelow Hid Hothers. unfold Db.rows_desc.
  rewrite (ids_desc_above table table' (id - 1) 1).
  - unfold ids_above. cbn [seq fmap list_fmap reverse rev_append app].
    replace (id - 1 + 1 + Z.of_nat 0) with id by lia.
    cbn [omap list_omap]. rewrite Hid. cbn [fmap option_fmap option_map].
    f_equal. apply omap_eq_on. intros k Hk.
    apply ids_desc_spec in Hk as [w Hk].
    rewrite Hothers; [done|]. specialize (Hbelow k w Hk). lia.
  - intros k w Hk. specialize (Hbelow k w Hk). lia.
  - intros k. destruct (decide (k = id)) as [->|Hk].
    + split; [intros _; right; lia|eauto].
    + rewrite (Hothers k Hk). split; [by left|]. intros [?|?]; [done|lia].
Qed.

(** X25.  While sqlite reports no error and ids are left, the note that
    the endpoint [create_note] answers with is the first of the listing
    of the notes afterwards, which goes on as the listing before did. *)
Theorem list_all_notes_newest_first (env : Db.sqlite_env) (db : Db.database)
    (content : str) :
  Db.fault_at env 0 = None →
  notes_base env db < Db.MAX_ROWID →
  ∃ db' note notes,
    Api.create_note env db content = (Api.Ok note, db')
    ∧ Api.nr_content note = content
    ∧ (Api.list_all_notes db).1 =
        Api.Ok {| Api.nl_notes := notes; Api.nl_count := length notes |}
    ∧ (Api.list_all_notes db').1 =
        Api.Ok {| Api.nl_notes := note :: notes;
                  Api.nl_count := S (length notes) |}.
Proof.
  intros Hfault Hleft.
  destruct (insert_note_ok env db content Hfault Hleft)
    as (db' & Hinsert & _ & Hnew & Hget & Hothers & _).
  exists db'. eexists. eexists.
  unfold Api.create_note. rewrite Hinsert, Hget.
  split; [done|]. split; [done|].
  unfold Api.list_all_notes, Db.list_notes, Db.get_connection.
  cbn [Db.or_database_error fst]. split; [done|].
  assert (∀ k w, Db.notes db !! k = Some w → k < notes_base env db + 1)
    as Hbelow.
  { intros k w Hk. apply max_rowid_ge in Hk. unfold notes_base. lia. }
  by rewrite (rows_desc_new (Db.notes db) (Db.notes db') _ _
                Hbelow Hnew Hothers).
Qed.

End Endpoints.

Lemma extract_llm_as_extract_witness :
  Api.extract_llm quiet_env quiet_env
    (ActionItems [py " Set up database "; py ""]) one_item_store
    {| Schemas.text := py "Notes of the meeting"; Schemas.save_note := false;
       Schemas.use_llm := true |} =
  Api.extract ascii_lower_table ascii_decimal_table quiet_env quiet_env
    (ActionItems [py " Set up database "; py ""]) one_item_store
    {| Schemas.text := py "Notes of the meeting"; Schemas.save_note := false;
       Schemas.use_llm := true |}.
Proof.
  apply (extract_llm_as_extract ascii_lower_table ascii_decimal_table).
  reflexivity.
Defined.

Lemma list_all_notes_newest_first_witness :
  ∃ db' note notes,
    Api.create_note quiet_env one_item_store (py "Meeting notes") =
      (Api.Ok note, db')
    ∧ Api.nr_content note = py "Meeting notes"
    ∧ (Api.list_all_notes one_item_store).1 =
        Api.Ok {| Api.nl_notes := notes; Api.nl_count := length notes |}
    ∧ (Api.list_all_notes db').1 =
        Api.Ok {| Api.nl_notes := note :: notes;
                  Api.nl_count := S (length notes) |}.
Proof.
  apply (list_all_notes_newest_first quiet_env one_item_store
           (py "Meeting notes")); [reflexivity|by vm_compute].
Defined.
